(** * StreetEasyOperator: the search-record parsing and classification engine

    A shallow embedding of
    [street-easy/plugins/operators/extract_and_transform_streeteasy.py]
    (class [StreetEasyOperator]) and the properties of its helpers
    [valid_searches], [avg_listings_sent], [type_of_search],
    [list_of_valid_searches] and of the table-building part of [execute].

    Conventions of the embedding.
    - A Python [str] is a [string]; a character is a code point below 256.
    - A Python [dict] with string keys and values is a [gmap string string].
    - A Python [set] of strings is a [gset string].
    - A Python exception is a value of [exn] carried by [result].
    - A NumPy [float64] is a primitive binary64 [float].
    - The [if] of lines 91-92 is written over two lines (the condition ends
      in [and] and carries on below); it is read as the single conjunction
      it spells. *)

From Stdlib Require Import ZArith NArith Ascii String List Bool Lia.
From Stdlib Require Import PrimFloat Uint63.
From Stdlib Require SpecFloat FloatOps.
From stdpp Require Import gmap strings list.

Local Open Scope string_scope.
Local Open Scope Z_scope.

(** ** Exceptions *)

Inductive exn : Type :=
| KeyError
| IndexError
| ValueError
| OverflowError.

Inductive result (A : Type) : Type :=
| Ok (a : A)
| Raise (e : exn).

Arguments Ok {A} a.
Arguments Raise {A} e.

#[global] Instance result_ret : MRet result := fun A a => Ok a.
#[global] Instance result_bind : MBind result := fun A B f m =>
  match m with
  | Ok a => f a
  | Raise e => Raise e
  end.
#[global] Instance result_fmap : FMap result := fun A B f m =>
  match m with
  | Ok a => Ok (f a)
  | Raise e => Raise e
  end.

(** ** Python strings *)

Module PyStr.

(** Whitespace as [str.isspace], [str.strip] and the regular expression
    class [\s] see it, for code points below 256: TAB..CR, FS..US, SPACE,
    NEL and NBSP. *)
Definition is_space (c : ascii) : bool :=
  let n := N_of_ascii c in
  (((9 <=? n) && (n <=? 13)) || ((28 <=? n) && (n <=? 32))
   || (n =? 133) || (n =? 160))%N.

Definition newline : ascii := ascii_of_N 10.

(** [strip_prefix p s] is [Some r] when [s = p ++ r]. *)
Fixpoint strip_prefix (p s : string) : option string :=
  match p with
  | EmptyString => Some s
  | String a p' =>
      match s with
      | EmptyString => None
      | String b s' => if Ascii.eqb a b then strip_prefix p' s' else None
      end
  end.

(** [s.startswith(p)] *)
Definition startswith (p s : string) : bool :=
  match strip_prefix p s with
  | Some _ => true
  | None => false
  end.

(** [s.split(sep)] for a non-empty [sep]: the text between the leftmost,
    non-overlapping occurrences of [sep]. The result is never empty. *)
Fixpoint split_fuel (fuel : nat) (sep s : string) : list string :=
  match fuel with
  | O => [s]
  | S fuel' =>
      match strip_prefix sep s with
      | Some rest => EmptyString :: split_fuel fuel' sep rest
      | None =>
          match s with
          | EmptyString => [EmptyString]
          | String c r =>
              match split_fuel fuel' sep r with
              | h :: t => String c h :: t
              | [] => [String c EmptyString]
              end
          end
      end
  end.

Definition split (sep s : string) : list string :=
  split_fuel (S (String.length s)) sep s.

(** [sep.join(l)] *)
Fixpoint join (sep : string) (l : list string) : string :=
  match l with
  | [] => EmptyString
  | [x] => x
  | x :: l' => x ++ sep ++ join sep l'
  end.

(** [sub in s] *)
Fixpoint contains (sub s : string) : bool :=
  startswith sub s ||
  match s with
  | EmptyString => false
  | String _ r => contains sub r
  end.

(** [s.strip()] *)
Fixpoint lstrip (s : string) : string :=
  match s with
  | EmptyString => EmptyString
  | String c r => if is_space c then lstrip r else s
  end.

Fixpoint rstrip (s : string) : string :=
  match s with
  | EmptyString => EmptyString
  | String c r =>
      match rstrip r with
      | EmptyString => if is_space c then EmptyString else String c EmptyString
      | r' => String c r'
      end
  end.

Definition strip (s : string) : string := rstrip (lstrip s).

End PyStr.

(** ** Regular expressions, as much of [re] as the operator uses *)

Module Re.

(** One character of a pattern: a literal, [.] or [\s]. *)
Inductive atom : Type :=
| Lit (c : ascii)
| AnyChar
| Space.

(** An atom, or an atom under the greedy [+]. *)
Inductive item : Type :=
| One (a : atom)
| Plus (a : atom).

(** A pattern is an alternation of sequences of items. *)
Definition branch : Type := list item.
Definition pattern : Type := list branch.

Definition atom_matches (a : atom) (c : ascii) : bool :=
  match a with
  | Lit l => Ascii.eqb l c
  | AnyChar => negb (Ascii.eqb c PyStr.newline)
  | Space => PyStr.is_space c
  end.

(** [match_branch b s] is what is left of [s] after the first match of [b]
    at its front, in the order a backtracking matcher tries them: [+] takes
    as many characters as it can and gives them back one at a time. *)
Fixpoint match_branch (b : branch) (s : string) : option string :=
  match b with
  | [] => Some s
  | One a :: b' =>
      match s with
      | String c r => if atom_matches a c then match_branch b' r else None
      | EmptyString => None
      end
  | Plus a :: b' =>
      match s with
      | String c r =>
          if atom_matches a c then
            (fix more (t : string) : option string :=
               match t with
               | String d u =>
                   if atom_matches a d then
                     match more u with
                     | Some rest => Some rest
                     | None => match_branch b' t
                     end
                   else match_branch b' t
               | EmptyString => match_branch b' t
               end) r
          else None
      | EmptyString => None
      end
  end.

(** The first alternative that matches wins. *)
Fixpoint match_pattern (p : pattern) (s : string) : option string :=
  match p with
  | [] => None
  | b :: p' =>
      match match_branch b s with
      | Some rest => Some rest
      | None => match_pattern p' s
      end
  end.

(** [re.sub(p, repl, s)]: every leftmost non-overlapping match of [p] is
    replaced by [repl]. The operator's patterns never match the empty
    string; were a match to take no character, the scan here moves on by
    one character. *)
Fixpoint sub_fuel (fuel : nat) (p : pattern) (repl s : string) : string :=
  match fuel with
  | O => s
  | S fuel' =>
      match s with
      | EmptyString => EmptyString
      | String c r =>
          match match_pattern p s with
          | Some rest =>
              if (String.length rest <? String.length s)%nat
              then repl ++ sub_fuel fuel' p repl rest
              else String c (sub_fuel fuel' p repl r)
          | None => String c (sub_fuel fuel' p repl r)
          end
      end
  end.

Definition sub (p : pattern) (repl s : string) : string :=
  sub_fuel (String.length s) p repl s.

End Re.

(** ** Python integers and NumPy floats *)

Module PyNum.

Definition digit_of (c : ascii) : option Z :=
  let n := N_of_ascii c in
  if ((48 <=? n) && (n <=? 57))%N then Some (Z.of_N n - 48) else None.

(** Where the scan of a decimal literal stands: nothing read yet, a digit
    just read, or an underscore just read. *)
Inductive lit_state : Type :=
| AtStart
| AfterDigit
| AfterUnderscore.

(** The digits of a decimal literal, single underscores allowed between
    digits (CPython 3.6 and later). *)
Fixpoint digits (st : lit_state) (acc : Z) (s : string) : option Z :=
  match s with
  | EmptyString =>
      match st with
      | AfterDigit => Some acc
      | _ => None
      end
  | String c r =>
      match digit_of c with
      | Some d => digits AfterDigit (10 * acc + d) r
      | None =>
          if Ascii.eqb c "_"%char then
            match st with
            | AfterDigit => digits AfterUnderscore acc r
            | _ => None
            end
          else None
      end
  end.

(** The whitespace [int] drops around a literal: TAB..CR and SPACE, which
    the parser skips, and NEL and NBSP, which it first turns into spaces.
    FS..US are not among them. *)
Definition is_int_space (c : ascii) : bool :=
  let n := N_of_ascii c in
  (((9 <=? n) && (n <=? 13)) || (n =? 32) || (n =? 133) || (n =? 160))%N.

Fixpoint int_lstrip (s : string) : string :=
  match s with
  | EmptyString => EmptyString
  | String c r => if is_int_space c then int_lstrip r else s
  end.

Fixpoint int_rstrip (s : string) : string :=
  match s with
  | EmptyString => EmptyString
  | String c r =>
      match int_rstrip r with
      | EmptyString =>
          if is_int_space c then EmptyString else String c EmptyString
      | r' => String c r'
      end
  end.

(** [int(s)] for a string [s]: surrounding whitespace is dropped, a sign
    may come first, the rest is a decimal literal of any length (the bound
    of 4300 digits of Python 3.11 and later is left out); anything else
    raises [ValueError]. *)
Definition int_of_str (s : string) : result Z :=
  let body := int_rstrip (int_lstrip s) in
  let signed :=
    match body with
    | String "-"%char r => Z.opp <$> digits AtStart 0 r
    | String "+"%char r => digits AtStart 0 r
    | _ => digits AtStart 0 body
    end in
  match signed with
  | Some n => Ok n
  | None => Raise ValueError
  end.

Local Open Scope float_scope.

Definition two52 : float := 4503599627370496.

(** The [float64] of an integer as a cast gives it: the nearest one, ties
    to even, whatever the size of the integer. *)
Definition float_of_Z (z : Z) : float :=
  FloatOps.SF2Prim
    (SpecFloat.binary_normalize FloatOps.prec FloatOps.emax z 0%Z false).

(** An integer as a binary number with exponent 0, exactly. *)
Definition spec_of_Z (z : Z) : SpecFloat.spec_float :=
  match z with
  | Z0 => SpecFloat.S754_zero false
  | Zpos p => SpecFloat.S754_finite false p 0%Z
  | Zneg p => SpecFloat.S754_finite true p 0%Z
  end.

(** [a / b] on two Python [int]s, [b] not zero: the [float] nearest to the
    exact quotient, ties to even; [OverflowError] when that is beyond the
    largest [float]. *)
Definition int_true_divide (a b : Z) : result float :=
  let q :=
    FloatOps.SF2Prim
      (SpecFloat.SFdiv FloatOps.prec FloatOps.emax (spec_of_Z a) (spec_of_Z b)) in
  if is_infinity q then Raise OverflowError else Ok q.

(** The integers NumPy holds as [int64] or [uint64]. *)
Definition fits_64_bits (z : Z) : bool :=
  ((- 2 ^ 63 <=? z) && (z <? 2 ^ 64))%Z.

(** [rint]: round to the nearest integer, ties to even, in the default
    rounding mode. *)
Definition rint (y : float) : float :=
  if two52 <=? abs y then y
  else if y =? 0 then y
  else if y <? 0 then - ((- y + two52) - two52)
  else (y + two52) - two52.

(** [np.round(x, 2)] on a [float64]: scale by [10**2], [rint], scale
    back. *)
Definition np_round2 (x : float) : float := rint (x * 100) / 100.

(** What [avg_listings_sent] returns: the Python [int] [0] or a
    [float64]. *)
Inductive number : Type :=
| PyInt (z : Z)
| NpFloat (x : float).

Definition is_float (x : number) : bool :=
  match x with
  | NpFloat _ => true
  | PyInt _ => false
  end.

Definition as_float (x : number) : number :=
  match x with
  | PyInt z => NpFloat (float_of_Z z)
  | NpFloat _ => x
  end.

(** The values of a pandas column of numbers: the column has one dtype,
    [float64] as soon as one of its values is a float, and the integers
    in it are then floats too. *)
Definition infer_column (col : list number) : list number :=
  if existsb is_float col then map as_float col else col.

End PyNum.

(** ** The operator *)

Module StreetEasyOperator.

Import PyStr PyNum.

(** [l[i]] *)
Definition getitem {A : Type} (l : list A) (i : nat) : result A :=
  match l !! i with
  | Some x => Ok x
  | None => Raise IndexError
  end.

(** [Series.apply(f)]: [f] on every cell, top to bottom; the first
    exception ends it. *)
Fixpoint apply {A B : Type} (f : A -> result B) (col : list A)
  : result (list B) :=
  match col with
  | [] => Ok []
  | x :: col' => y ← f x; ys ← apply f col'; Ok (y :: ys)
  end.

Definition backslash : ascii := "\"%char.

(** [r'(\\.n|\\.n\s+:|\\)'] *)
Definition re_escapes : Re.pattern :=
  [ [Re.One (Re.Lit backslash); Re.One Re.AnyChar; Re.One (Re.Lit "n"%char)];
    [Re.One (Re.Lit backslash); Re.One Re.AnyChar; Re.One (Re.Lit "n"%char);
     Re.Plus Re.Space; Re.One (Re.Lit ":"%char)];
    [Re.One (Re.Lit backslash)] ].

(** [r'\s+:'] *)
Definition re_space_colon : Re.pattern :=
  [ [Re.Plus Re.Space; Re.One (Re.Lit ":"%char)] ].

(** [r'\''] *)
Definition re_quote : Re.pattern := [ [Re.One (Re.Lit "'"%char)] ].

(** The tuple of line 86. *)
Definition recognized : list string :=
  ["search_id"; "enabled"; "clicks"; "type"; "listings_sent"; "recommended"].

(** Lines 64 and 67: the chunks between [\n-], those starting with [---]
    dropped. *)
Definition chunks (searches : string) : list string :=
  filter (fun item => negb (startswith "---" item)) (split "\n-" searches).

(** Lines 74 to 77: the token lists of the chunks. *)
Definition token_lists (searches : list string) : list (list string) :=
  let searches := filter (fun item => negb (startswith "---" item)) searches in
  let searches := map (Re.sub re_escapes " ") searches in
  let searches := map (Re.sub re_space_colon ",") searches in
  map (split ",") searches.

(** Lines 85 to 90: the record of one token list. *)
Fixpoint scan_keys (item : list string) (search_dict : gmap string string)
  : result (gmap string string) :=
  match item with
  | [] => Ok search_dict
  | key :: item' =>
      name ← getitem (split ":" key) 0;
      if bool_decide (name ∈ recognized) then
        d_key ← getitem (split ":" key) 0;
        d_value ← strip <$> getitem (split ":" key) 1;
        scan_keys item' (<[d_key := d_value]> search_dict)
      else scan_keys item' search_dict
  end.

(** [int(search_dict.get('clicks', 0))] *)
Definition clicks_of (search_dict : gmap string string) : result Z :=
  match search_dict !! "clicks" with
  | Some v => int_of_str v
  | None => Ok 0
  end.

(** Lines 91 and 92: the condition under which a record is kept. The
    right operand of [and] is evaluated only when the left one holds. *)
Definition is_valid (search_dict : gmap string string) : result bool :=
  match search_dict !! "enabled" with
  | None => Raise KeyError
  | Some enabled =>
      if String.eqb enabled "true" then
        clicks ← clicks_of search_dict; Ok (3 <=? clicks)
      else Ok false
  end.

(** Lines 82 to 95: the loop over the token lists. *)
Fixpoint valid_loop (searches : list (list string))
    (valid_searches : list (gmap string string))
  : result (list (gmap string string)) :=
  match searches with
  | [] => Ok valid_searches
  | item :: searches' =>
      search_dict ← scan_keys item ∅;
      keep ← is_valid search_dict;
      valid_loop searches'
        (if keep : bool then valid_searches ++ [search_dict]
         else valid_searches)
  end.

Definition valid_searches (searches : string)
  : result (list (gmap string string)) :=
  let searches := chunks searches in
  if (length searches =? 0)%nat then Ok []
  else valid_loop (token_lists searches) [].

(** Lines 98 to 103 *)
Fixpoint avg_loop (valid_searches : list (gmap string string))
    (num_listings listings : Z) : result (Z * Z) :=
  match valid_searches with
  | [] => Ok (num_listings, listings)
  | item :: rest =>
      match item !! "listings_sent" with
      | Some (String _ _ as v) =>
          n ← int_of_str v; avg_loop rest (num_listings + 1) (listings + n)
      | _ => avg_loop rest num_listings listings
      end
  end.

(** [np.sum(listings)/num_listings]. [np.sum] of a Python [int] is an
    [int64] or a [uint64] when the integer fits one (as where a C [long] has
    64 bits), and the division is then that of the two numbers as
    [float64]s; otherwise [np.sum] hands the Python [int] back and the
    division is Python's. [num_listings] counts elements of a list. *)
Definition sum_true_divide (listings num_listings : Z) : result float :=
  if fits_64_bits listings
  then Ok (float_of_Z listings / float_of_Z num_listings)%float
  else int_true_divide listings num_listings.

(** [np.round(np.sum(listings)/num_listings, 2)] *)
Definition rounded_mean (listings num_listings : Z) : result number :=
  q ← sum_true_divide listings num_listings; Ok (NpFloat (np_round2 q)).

Definition avg_listings_sent (valid_searches : list (gmap string string))
  : result number :=
  counts ← avg_loop valid_searches 0 0;
  if 0 <? counts.1 then rounded_mean counts.2 counts.1
  else Ok (PyInt 0).

(** Lines 117 to 125 *)
Fixpoint type_loop (valid_searches : list (gmap string string))
    (rental sale : Z) : Z * Z :=
  match valid_searches with
  | [] => (rental, sale)
  | item :: rest =>
      if bool_decide (item !! "type" = Some "Rental")
      then type_loop rest (rental + 1) sale
      else if bool_decide (item !! "type" = Some "Sale")
      then type_loop rest rental (sale + 1)
      else type_loop rest rental sale
  end.

Definition type_of_search (valid_searches : list (gmap string string))
  : string :=
  let counts := type_loop valid_searches 0 0 in
  if (0 <? counts.1) && (0 <? counts.2) then "rental_and_sale"
  else if 0 <? counts.1 then "rental"
  else if 0 <? counts.2 then "sale"
  else "none".

(** Lines 143 to 147 *)
Fixpoint list_loop (valid_searches : list (gmap string string))
    (search_list : list string) : list string :=
  match valid_searches with
  | [] => search_list
  | item :: rest =>
      match item !! "search_id" with
      | Some (String _ _ as v) => list_loop rest (search_list ++ [v])
      | _ => list_loop rest search_list
      end
  end.

Definition list_of_valid_searches
    (valid_searches : list (gmap string string)) : list string :=
  list_loop valid_searches [].

(** A row of the summary table, the frame [data] of line 234. *)
Record summary_row : Type := {
  row_user_id : string;
  row_num_valid_searches : nat;
  row_avg_listings : number;
  row_type_of_search : string;
  row_list_of_valid_searches : list string
}.

(** Lines 201 to 204 *)
Definition add_sublist (unique_valid_searches : gset string)
    (sublist : list string) : gset string :=
  foldl (fun acc item => acc ∪ {[ Re.sub re_quote "" item ]})
    unique_valid_searches sublist.

(** Lines 176 to 207 of [execute]: from the rows read, [(user_id,
    searches)], to the two tables written. The rows of the unique-search
    table come in the order [list(set)] gives, here that of [elements]. *)
Definition execute (data : list (string * string))
  : result (list summary_row * list string) :=
  valid ← apply valid_searches (data.*2);
  let data := zip (data.*1) valid in
  let data := filter (fun r => (0 <? length r.2)%nat) data in
  avg ← apply avg_listings_sent (data.*2);
  let avg := infer_column avg in
  let data :=
    zip_with (fun r a =>
      {| row_user_id := r.1;
         row_num_valid_searches := length r.2;
         row_avg_listings := a;
         row_type_of_search := type_of_search r.2;
         row_list_of_valid_searches := list_of_valid_searches r.2 |})
      data avg in
  let unique_valid_searches :=
    foldl add_sublist ∅ (map row_list_of_valid_searches data) in
  Ok (data, elements unique_valid_searches).

(** [r'-'] *)
Definition re_dash : Re.pattern := [ [Re.One (Re.Lit "-"%char)] ].

(** Lines 163 and 165 (and 214, 216, 228, 230): the path of an object, from
    the bucket and the key once its template is rendered. *)
Definition s3_path (s3_bucket rendered_key : string) : string :=
  let rendered_key_no_dashes := Re.sub re_dash "" rendered_key in
  "s3://" ++ s3_bucket ++ "/" ++ rendered_key_no_dashes.

(** Line 209: [np.sum(data['num_valid_searches'])] *)
Definition total_valid_searches (data : list summary_row) : nat :=
  foldr (fun row total => (row_num_valid_searches row + total)%nat) 0%nat data.

(** Line 210: [np.sum(data['num_valid_searches'] > 0)] *)
Definition total_users (data : list summary_row) : nat :=
  length (filter (fun row => (0 <? row_num_valid_searches row)%nat) data).

End StreetEasyOperator.

(** ** The behaviour as the specification words it

    Kept apart from the operator: these definitions follow the sentences of
    the specification, not the code, and are what the code is compared
    with. *)

Module Described.

Import PyStr PyNum.

(** "the literal sequences [\.n], [\.n] followed by whitespace then [:],
    or a lone [\]": the dot read as a dot. *)
Definition re_escapes : Re.pattern :=
  [ [Re.One (Re.Lit StreetEasyOperator.backslash); Re.One (Re.Lit "."%char);
     Re.One (Re.Lit "n"%char)];
    [Re.One (Re.Lit StreetEasyOperator.backslash); Re.One (Re.Lit "."%char);
     Re.One (Re.Lit "n"%char); Re.Plus Re.Space; Re.One (Re.Lit ":"%char)];
    [Re.One (Re.Lit StreetEasyOperator.backslash)] ].

Definition token_lists (searches : list string) : list (list string) :=
  let searches := filter (fun item => negb (startswith "---" item)) searches in
  let searches := map (Re.sub re_escapes " ") searches in
  let searches := map (Re.sub StreetEasyOperator.re_space_colon ",") searches in
  map (split ",") searches.

(** "split on the first [:]": the text before it and the text after it
    (all of the token and nothing when it has no [:]). *)
Fixpoint partition_colon (s : string) : string * string :=
  match s with
  | EmptyString => (EmptyString, EmptyString)
  | String c r =>
      if Ascii.eqb c ":"%char then (EmptyString, r)
      else let kv := partition_colon r in (String c kv.1, kv.2)
  end.

(** "if the key (trimmed) is one of the six recognized field names, store
    [{key: value.strip()}]; unrecognized keys are silently ignored" *)
Fixpoint scan_keys (item : list string) (search_dict : gmap string string)
  : gmap string string :=
  match item with
  | [] => search_dict
  | token :: item' =>
      let kv := partition_colon token in
      let key := strip kv.1 in
      if bool_decide (key ∈ StreetEasyOperator.recognized)
      then scan_keys item' (<[key := strip kv.2]> search_dict)
      else scan_keys item' search_dict
  end.

(** "over valid searches possessing a [listings_sent] field, sum the
    integer values and divide by the count of such searches; round to 2
    decimal places. Return exactly [0] when no valid search has
    [listings_sent]" *)
Definition avg_listings (valid_searches : list (gmap string string))
  : result number :=
  let having := omap (fun item => item !! "listings_sent") valid_searches in
  values ← StreetEasyOperator.apply int_of_str having;
  if (length having =? 0)%nat then Ok (PyInt 0)
  else Ok (NpFloat
             (np_round2
                (PrimFloat.div
                   (float_of_Z (foldr Z.add 0 values))
                   (float_of_Z (Z.of_nat (length having)))))).

(** "ordered sequence of [search_id] for valid searches that have that
    field" *)
Definition list_of_valid_searches
    (valid_searches : list (gmap string string)) : list string :=
  omap (fun item => item !! "search_id") valid_searches.

End Described.

(** ** Notions the statements use *)

Import PyStr PyNum StreetEasyOperator.

(** A record is a valid search: [enabled] is exactly ["true"] and the
    integer value of [clicks] ([0] when absent) is at least 3. *)
Definition valid_record (search_dict : gmap string string) : Prop :=
  search_dict !! "enabled" = Some "true" /\
  exists clicks : Z, clicks_of search_dict = Ok clicks /\ 3 <= clicks.

Definition valid_recordb (search_dict : gmap string string) : bool :=
  bool_decide (search_dict !! "enabled" = Some "true") &&
  match clicks_of search_dict with
  | Ok clicks => 3 <=? clicks
  | Raise _ => false
  end.

(** The value of a field when it is there and not empty. *)
Definition nonempty_field (name : string) (item : gmap string string)
  : option string :=
  match item !! name with
  | Some (String _ _ as v) => Some v
  | _ => None
  end.

(** Every character of a string is whitespace. *)
Fixpoint all_space (s : string) : bool :=
  match s with
  | EmptyString => true
  | String c r => is_space c && all_space r
  end.

(** The string is a run of whitespace, possibly empty, then [:]. *)
Fixpoint space_then_colon (s : string) : bool :=
  match s with
  | EmptyString => false
  | String c r =>
      Ascii.eqb c ":"%char || (is_space c && space_then_colon r)
  end.

(** The string starts with a character other than a newline, then [n]. *)
Definition any_then_n (s : string) : bool :=
  match s with
  | String d (String e _) => negb (Ascii.eqb d newline) && Ascii.eqb e "n"%char
  | _ => false
  end.

(** The string has no character [c]. *)
Fixpoint free_of (c : ascii) (s : string) : bool :=
  match s with
  | EmptyString => true
  | String d r => negb (Ascii.eqb c d) && free_of c r
  end.

(** The characters of [s] other than [c], in order. *)
Fixpoint without (c : ascii) (s : string) : string :=
  match s with
  | EmptyString => EmptyString
  | String d r => if Ascii.eqb c d then without c r else String d (without c r)
  end.

(** What [+] does after its first character, as [Re.match_branch] has it:
    take more of [a] while that leads to a match, then go on with [b]. *)
Fixpoint plus_more (a : Re.atom) (b : Re.branch) (t : string) : option string :=
  match t with
  | String d u =>
      if Re.atom_matches a d then
        match plus_more a b u with
        | Some rest => Some rest
        | None => Re.match_branch b t
        end
      else Re.match_branch b t
  | EmptyString => Re.match_branch b t
  end.

(** The rows of [data] kept by line 183, each with its valid searches. *)
Definition retained (data : list (string * string))
    (valid : list (list (gmap string string)))
  : list (string * list (gmap string string)) :=
  filter (fun r => (0 <? length r.2)%nat) (zip (data.*1) valid).

(** The row of the summary table for a kept row and its average. *)
Definition summary_of (r : string * list (gmap string string)) (a : number)
  : summary_row :=
  {| row_user_id := r.1;
     row_num_valid_searches := length r.2;
     row_avg_listings := a;
     row_type_of_search := type_of_search r.2;
     row_list_of_valid_searches := list_of_valid_searches r.2 |}.

(** The summary table of [execute], empty when it raises. *)
Definition execute_rows (data : list (string * string)) : list summary_row :=
  match execute data with
  | Ok tables => tables.1
  | Raise _ => []
  end.

(** A row of the summary table with another value in [avg_listings]. *)
Definition with_avg (row : summary_row) (a : number) : summary_row :=
  {| row_user_id := row_user_id row;
     row_num_valid_searches := row_num_valid_searches row;
     row_avg_listings := a;
     row_type_of_search := row_type_of_search row;
     row_list_of_valid_searches := row_list_of_valid_searches row |}.

(** The rows of the unique-search table for a summary table. *)
Definition unique_ids (rows : list summary_row) : list string :=
  elements (foldl add_sublist ∅ (map row_list_of_valid_searches rows)).

(** A value as the decoder leaves it: no backslash, comma or colon in it,
    and no whitespace at either end. *)
Definition clean_value (v : string) : Prop :=
  free_of backslash v = true /\ free_of "," v = true /\
  free_of ":" v = true /\ strip v = v.

(** The first character of a string, when it has one, is not whitespace. *)
Definition starts_tight (s : string) : Prop :=
  match s with
  | EmptyString => True
  | String c _ => is_space c = false
  end.

(** No character of a string is whitespace. *)
Fixpoint no_space (s : string) : bool :=
  match s with
  | EmptyString => true
  | String c r => negb (is_space c) && no_space r
  end.

(** The sum of a list of integers. *)
Definition sum_Z (values : list Z) : Z := foldr Z.add 0 values.

(** * Properties *)

(** ** The [result] monad *)

Lemma bind_Ok {A B : Type} (f : A -> result B) (a : A) :
  (Ok a ≫= f) = f a.
Proof. reflexivity. Qed.

Lemma bind_Raise {A B : Type} (f : A -> result B) (e : exn) :
  (Raise e ≫= f) = Raise e.
Proof. reflexivity. Qed.

Lemma bind_Ok_inv {A B : Type} (f : A -> result B) (m : result A) (b : B) :
  (m ≫= f) = Ok b -> exists a, m = Ok a /\ f a = Ok b.
Proof. destruct m as [a|e]; [eauto | discriminate]. Qed.

Lemma apply_app {A B : Type} (f : A -> result B) (l1 l2 : list A) :
  apply f (l1 ++ l2) =
  (ys1 ← apply f l1; ys2 ← apply f l2; Ok (ys1 ++ ys2)%list).
Proof.
  induction l1 as [|x l1 IH]; simpl.
  - destruct (apply f l2); reflexivity.
  - destruct (f x) as [y|e]; simpl; [|reflexivity].
    rewrite IH. destruct (apply f l1) as [ys1|e]; simpl; [|reflexivity].
    destruct (apply f l2); reflexivity.
Qed.

Lemma apply_length {A B : Type} (f : A -> result B) (l : list A) (ys : list B) :
  apply f l = Ok ys -> length ys = length l.
Proof.
  revert ys. induction l as [|x l IH]; simpl; intros ys H.
  - inversion H. reflexivity.
  - destruct (f x) as [y|e]; simpl in H; [|discriminate].
    destruct (apply f l) as [ys'|e]; simpl in H; [|discriminate].
    inversion H. simpl. f_equal. apply IH. reflexivity.
Qed.

(** ** Strings *)

Lemma app_String (c : ascii) (a b : string) :
  String c a ++ b = String c (a ++ b).
Proof. reflexivity. Qed.

Lemma app_Empty (b : string) : "" ++ b = b.
Proof. reflexivity. Qed.

Ltac string_app := rewrite ?app_String, ?app_Empty.

Lemma string_app_assoc (a b c : string) : (a ++ b) ++ c = a ++ (b ++ c).
Proof.
  induction a as [|x a IH]; string_app; [reflexivity | rewrite IH; reflexivity].
Qed.

Lemma string_app_nil_r (a : string) : a ++ "" = a.
Proof.
  induction a as [|x a IH]; string_app; [reflexivity | rewrite IH; reflexivity].
Qed.

Lemma string_length_app (a b : string) :
  String.length (a ++ b) = (String.length a + String.length b)%nat.
Proof.
  induction a as [|c a IH]; string_app; simpl;
    [reflexivity | rewrite IH; reflexivity].
Qed.

(** Induction on the length of a string. *)
Lemma string_length_ind (P : string -> Prop) :
  (forall s, (forall r, (String.length r < String.length s)%nat -> P r) -> P s) ->
  forall s, P s.
Proof.
  intros H s.
  assert (forall n r, (String.length r < n)%nat -> P r) as Hn.
  { induction n as [|n IH]; intros r Hr; [lia|].
    apply H. intros r' Hr'. apply IH. lia. }
  apply (Hn (S (String.length s))). lia.
Qed.

Lemma strip_prefix_Some (p s r : string) :
  strip_prefix p s = Some r <-> s = p ++ r.
Proof.
  revert s. induction p as [|a p IH]; intros s; simpl; string_app.
  - split; intros H; [inversion H | rewrite H]; reflexivity.
  - destruct s as [|b s]; [split; discriminate|].
    destruct (Ascii.eqb_spec a b) as [->|Hab].
    + rewrite IH. split; intros H; [rewrite H | inversion H]; reflexivity.
    + split; [discriminate | intros H; inversion H; congruence].
Qed.

Lemma strip_prefix_shorter (p s r : string) :
  p <> "" -> strip_prefix p s = Some r ->
  (String.length r < String.length s)%nat.
Proof.
  intros Hp H. apply strip_prefix_Some in H. subst s.
  rewrite string_length_app. destruct p; [contradiction | simpl; lia].
Qed.

Lemma startswith_spec (p s : string) :
  startswith p s = true <-> exists r, s = p ++ r.
Proof.
  unfold startswith. split.
  - destruct (strip_prefix p s) as [r|] eqn:H; [|discriminate].
    intros _. exists r. apply strip_prefix_Some. exact H.
  - intros [r ->].
    assert (strip_prefix p (p ++ r) = Some r) as H
      by (apply strip_prefix_Some; reflexivity).
    rewrite H. reflexivity.
Qed.

Lemma startswith_prefix_mono (p h r : string) :
  startswith p h = true -> startswith p (h ++ r) = true.
Proof.
  rewrite !startswith_spec. intros [x ->]. exists (x ++ r).
  apply string_app_assoc.
Qed.

Lemma contains_empty (p : string) : p <> "" -> contains p "" = false.
Proof. intros Hp. destruct p; [contradiction | reflexivity]. Qed.

Lemma join_cons (sep x : string) (l : list string) :
  l <> [] -> join sep (x :: l) = x ++ sep ++ join sep l.
Proof. destruct l; [contradiction | reflexivity]. Qed.

Lemma join_cons_char (sep : string) (c : ascii) (h : string) (t : list string) :
  join sep (String c h :: t) = String c (join sep (h :: t)).
Proof. destruct t; reflexivity. Qed.

(** *** [str.split] on a separator that is not empty *)

Section Split.

Variable sep : string.
Hypothesis sep_nonempty : sep <> "".

(** [split] does not depend on the fuel once there is enough of it. *)
Lemma split_fuel_enough (fuel fuel' : nat) (s : string) :
  (String.length s < fuel)%nat -> (String.length s < fuel')%nat ->
  split_fuel fuel sep s = split_fuel fuel' sep s.
Proof.
  revert fuel' s.
  induction fuel as [|fuel IH]; intros fuel' s Hf Hf'; [lia|].
  destruct fuel' as [|fuel']; [lia|]. simpl.
  destruct (strip_prefix sep s) as [rest|] eqn:Hp.
  - pose proof (strip_prefix_shorter sep s rest sep_nonempty Hp).
    f_equal. apply IH; lia.
  - destruct s as [|c r]; [reflexivity|]. simpl in Hf, Hf'.
    rewrite (IH fuel' r) by lia. reflexivity.
Qed.

Lemma split_unfold (s : string) :
  split sep s =
  match strip_prefix sep s with
  | Some rest => "" :: split sep rest
  | None =>
      match s with
      | "" => [""]
      | String c r =>
          match split sep r with
          | h :: t => String c h :: t
          | [] => [String c ""]
          end
      end
  end.
Proof.
  unfold split at 1. simpl.
  destruct (strip_prefix sep s) as [rest|] eqn:Hp.
  - pose proof (strip_prefix_shorter sep s rest sep_nonempty Hp).
    f_equal. apply split_fuel_enough; lia.
  - destruct s as [|c r]; reflexivity.
Qed.

Lemma split_not_nil (s : string) : split sep s <> [].
Proof.
  rewrite split_unfold.
  destruct (strip_prefix sep s); [discriminate|].
  destruct s as [|c r]; [discriminate|].
  destruct (split sep r); discriminate.
Qed.

(** Joining the pieces of [split] with the separator gives the string
    back. *)
Lemma join_split (s : string) : join sep (split sep s) = s.
Proof.
  induction s as [s IH] using string_length_ind.
  rewrite split_unfold.
  destruct (strip_prefix sep s) as [rest|] eqn:Hp.
  - pose proof (strip_prefix_shorter sep s rest sep_nonempty Hp) as Hlt.
    rewrite join_cons by apply split_not_nil.
    rewrite (IH rest Hlt). string_app. symmetry. apply strip_prefix_Some. exact Hp.
  - destruct s as [|c r]; [reflexivity|].
    pose proof (split_not_nil r) as Hne.
    destruct (split sep r) as [|h t] eqn:Hs; [contradiction|].
    rewrite join_cons_char. rewrite <- Hs. rewrite IH by (simpl; lia).
    reflexivity.
Qed.

Lemma split_head_prefix (s h : string) (t : list string) :
  split sep s = h :: t -> exists r, s = h ++ r.
Proof.
  intros Hs. pose proof (join_split s) as Hj.
  rewrite Hs in Hj. destruct t as [|x t]; simpl in Hj.
  - exists "". rewrite string_app_nil_r. symmetry. exact Hj.
  - eexists. symmetry. exact Hj.
Qed.

(** No piece of [split] has the separator in it. *)
Lemma split_free (s : string) :
  Forall (fun x => contains sep x = false) (split sep s).
Proof.
  induction s as [s IH] using string_length_ind.
  rewrite split_unfold.
  destruct (strip_prefix sep s) as [rest|] eqn:Hp.
  - pose proof (strip_prefix_shorter sep s rest sep_nonempty Hp) as Hlt.
    constructor; [|apply IH; exact Hlt].
    apply contains_empty, sep_nonempty.
  - destruct s as [|c r].
    + constructor; [|constructor]. apply contains_empty, sep_nonempty.
    + pose proof (split_not_nil r) as Hne.
      assert (String.length r < String.length (String c r))%nat as Hlt
        by (simpl; lia).
      pose proof (IH r Hlt) as IHr.
      destruct (split sep r) as [|h t] eqn:Hs; [contradiction|].
      inversion IHr as [|? ? Hh Ht]; subst.
      constructor; [|exact Ht].
      simpl. rewrite Hh, orb_false_r.
      destruct (startswith sep (String c h)) eqn:Hsw; [|reflexivity].
      destruct (split_head_prefix r h t Hs) as [x ->].
      apply (startswith_prefix_mono _ _ x) in Hsw. rewrite app_String in Hsw.
      unfold startswith in Hsw. rewrite Hp in Hsw. discriminate.
Qed.

End Split.

(** *** [str.split] on one character *)

Section SplitChar.

Variable c : ascii.

Lemma strip_prefix_char (d : ascii) (r : string) :
  strip_prefix (String c "") (String d r) =
  if Ascii.eqb c d then Some r else None.
Proof. reflexivity. Qed.

Lemma char_sep_nonempty : String c "" <> "".
Proof. discriminate. Qed.

Lemma split_char_free (k : string) :
  free_of c k = true -> split (String c "") k = [k].
Proof.
  induction k as [|d k IH]; intros Hk; [reflexivity|].
  cbn [free_of] in Hk. apply andb_prop in Hk as [Hd Hk].
  rewrite split_unfold by apply char_sep_nonempty.
  rewrite strip_prefix_char. apply negb_true_iff in Hd. rewrite Hd.
  rewrite (IH Hk). reflexivity.
Qed.

Lemma split_char_at (k r : string) :
  free_of c k = true ->
  split (String c "") (k ++ String c r) = k :: split (String c "") r.
Proof.
  induction k as [|d k IH]; intros Hk.
  - rewrite app_Empty, split_unfold by apply char_sep_nonempty.
    rewrite strip_prefix_char, Ascii.eqb_refl. reflexivity.
  - cbn [free_of] in Hk. apply andb_prop in Hk as [Hd Hk].
    rewrite app_String, split_unfold by apply char_sep_nonempty.
    rewrite strip_prefix_char. apply negb_true_iff in Hd. rewrite Hd.
    rewrite (IH Hk). reflexivity.
Qed.

End SplitChar.

(** ** Regular expressions *)

Lemma sub_fuel_enough (p : Re.pattern) (repl : string) (fuel fuel' : nat)
    (s : string) :
  (String.length s <= fuel)%nat -> (String.length s <= fuel')%nat ->
  Re.sub_fuel fuel p repl s = Re.sub_fuel fuel' p repl s.
Proof.
  revert fuel' s. induction fuel as [|fuel IH]; intros fuel' s Hf Hf'.
  - destruct s; [|simpl in Hf; lia]. destruct fuel'; reflexivity.
  - destruct s as [|c r]; [destruct fuel'; reflexivity|].
    destruct fuel' as [|fuel']; [simpl in Hf'; lia|].
    simpl in Hf, Hf'. simpl.
    destruct (Re.match_pattern p (String c r)) as [rest|].
    + destruct (Nat.ltb_spec (String.length rest) (S (String.length r))).
      * f_equal. apply IH; lia.
      * f_equal. apply IH; lia.
    + f_equal. apply IH; lia.
Qed.

Lemma sub_unfold (p : Re.pattern) (repl : string) (c : ascii) (r : string) :
  Re.sub p repl (String c r) =
  match Re.match_pattern p (String c r) with
  | Some rest =>
      if (String.length rest <? S (String.length r))%nat
      then repl ++ Re.sub p repl rest
      else String c (Re.sub p repl r)
  | None => String c (Re.sub p repl r)
  end.
Proof.
  unfold Re.sub at 1. simpl.
  destruct (Re.match_pattern p (String c r)) as [rest|].
  - destruct (Nat.ltb_spec (String.length rest) (S (String.length r))).
    + f_equal. apply sub_fuel_enough; lia.
    + f_equal.
  - reflexivity.
Qed.

Lemma sub_empty (p : Re.pattern) (repl : string) : Re.sub p repl "" = "".
Proof. reflexivity. Qed.

Lemma match_branch_plus (a : Re.atom) (b : Re.branch) (c : ascii) (r : string) :
  Re.match_branch (Re.Plus a :: b) (String c r) =
  if Re.atom_matches a c then plus_more a b r else None.
Proof.
  simpl. destruct (Re.atom_matches a c); [|reflexivity].
  induction r as [|d u IH]; [reflexivity|].
  simpl. destruct (Re.atom_matches a d); [|reflexivity].
  rewrite IH. reflexivity.
Qed.

(** *** [r'\''] *)

Lemma match_lit (l c : ascii) (r : string) :
  Re.match_pattern [[Re.One (Re.Lit l)]] (String c r) =
  if Ascii.eqb l c then Some r else None.
Proof. simpl. destruct (Ascii.eqb l c); reflexivity. Qed.

Lemma ltb_length_tail (r : string) :
  (String.length r <? S (String.length r))%nat = true.
Proof. apply Nat.ltb_lt. lia. Qed.

Lemma sub_quote_without (s : string) :
  Re.sub re_quote "" s = without "'"%char s.
Proof.
  induction s as [|c r IH]; [reflexivity|].
  unfold re_quote in *. rewrite sub_unfold, match_lit. cbn [without].
  destruct (Ascii.eqb "'"%char c).
  - rewrite ltb_length_tail, app_Empty. exact IH.
  - rewrite IH. reflexivity.
Qed.

Lemma without_free (c : ascii) (s : string) : free_of c (without c s) = true.
Proof.
  induction s as [|d r IH]; [reflexivity|]. cbn [without].
  destruct (Ascii.eqb c d) eqn:Hcd; [exact IH|].
  cbn [free_of]. rewrite Hcd, IH. reflexivity.
Qed.

(** *** [r'(\\.n|\\.n\s+:|\\)'] *)

Lemma match_escapes (c : ascii) (r : string) :
  Re.match_pattern re_escapes (String c r) =
  if Ascii.eqb backslash c then
    match r with
    | String d (String e r') =>
        if negb (Ascii.eqb d newline) && Ascii.eqb "n"%char e
        then Some r' else Some r
    | _ => Some r
    end
  else None.
Proof.
  unfold re_escapes.
  generalize backslash, "n"%char, ":"%char. intros bs n col.
  cbn [Re.match_pattern Re.match_branch Re.atom_matches].
  destruct (Ascii.eqb bs c); [|reflexivity].
  destruct r as [|d [|e r']]; try reflexivity.
  - destruct (negb (Ascii.eqb d newline)); reflexivity.
  - destruct (negb (Ascii.eqb d newline)); [|reflexivity]. simpl andb.
    destruct (Ascii.eqb n e); reflexivity.
Qed.

Lemma sub_escapes_other (c : ascii) (r : string) :
  c <> backslash ->
  Re.sub re_escapes " " (String c r) = String c (Re.sub re_escapes " " r).
Proof.
  intros Hc. rewrite sub_unfold, match_escapes.
  destruct (Ascii.eqb_spec backslash c); [congruence | reflexivity].
Qed.

Lemma sub_escapes_triple (d : ascii) (r : string) :
  d <> newline ->
  Re.sub re_escapes " " (String backslash (String d (String "n" r))) =
  " " ++ Re.sub re_escapes " " r.
Proof.
  intros Hd. rewrite sub_unfold, match_escapes.
  rewrite Ascii.eqb_refl.
  destruct (Ascii.eqb_spec d newline); [contradiction|].
  rewrite Ascii.eqb_refl. cbn [negb andb].
  rewrite (proj2 (Nat.ltb_lt _ _)) by (simpl; lia). reflexivity.
Qed.

Lemma sub_escapes_lone (r : string) :
  any_then_n r = false ->
  Re.sub re_escapes " " (String backslash r) = " " ++ Re.sub re_escapes " " r.
Proof.
  intros Hr. rewrite sub_unfold, match_escapes.
  rewrite Ascii.eqb_refl.
  destruct r as [|d [|e r']].
  - reflexivity.
  - rewrite ltb_length_tail. reflexivity.
  - unfold any_then_n in Hr. rewrite (Ascii.eqb_sym "n"%char e), Hr.
    rewrite ltb_length_tail. reflexivity.
Qed.

(** *** [r'\s+:'] *)

Lemma plus_more_space_colon (w r : string) :
  all_space w = true ->
  plus_more Re.Space [Re.One (Re.Lit ":"%char)] (w ++ String ":" r) = Some r.
Proof.
  intros Hw. induction w as [|d w IH].
  - rewrite app_Empty. reflexivity.
  - cbn [all_space] in Hw. apply andb_prop in Hw as [Hd Hw].
    rewrite app_String. cbn [plus_more Re.atom_matches]. rewrite Hd.
    rewrite (IH Hw). reflexivity.
Qed.

Lemma plus_more_no_colon (t : string) :
  space_then_colon t = false ->
  plus_more Re.Space [Re.One (Re.Lit ":"%char)] t = None.
Proof.
  induction t as [|d u IH]; intros Ht; [reflexivity|].
  cbn [space_then_colon] in Ht. apply orb_false_elim in Ht as [Hcol Hrun].
  assert (Re.match_branch [Re.One (Re.Lit ":"%char)] (String d u) = None) as Hb.
  { cbn [Re.match_branch Re.atom_matches].
    rewrite (Ascii.eqb_sym ":"%char d), Hcol. reflexivity. }
  cbn [plus_more Re.atom_matches].
  destruct (is_space d); [|exact Hb].
  simpl in Hrun. rewrite (IH Hrun). exact Hb.
Qed.

Lemma match_space_colon (c : ascii) (r : string) :
  Re.match_pattern re_space_colon (String c r) =
  if is_space c then plus_more Re.Space [Re.One (Re.Lit ":"%char)] r else None.
Proof.
  unfold re_space_colon. cbn [Re.match_pattern].
  rewrite match_branch_plus. cbn [Re.atom_matches].
  destruct (is_space c); [|reflexivity].
  destruct (plus_more Re.Space [Re.One (Re.Lit ":"%char)] r); reflexivity.
Qed.

Lemma sub_space_colon_keep (c : ascii) (r : string) :
  is_space c = false \/ space_then_colon r = false ->
  Re.sub re_space_colon "," (String c r) =
  String c (Re.sub re_space_colon "," r).
Proof.
  intros H. rewrite sub_unfold, match_space_colon.
  destruct (is_space c); [|reflexivity].
  destruct H as [H|H]; [discriminate|].
  rewrite (plus_more_no_colon r H). reflexivity.
Qed.

Lemma sub_space_colon_run (w r : string) :
  w <> "" -> all_space w = true ->
  Re.sub re_space_colon "," (w ++ String ":" r) =
  "," ++ Re.sub re_space_colon "," r.
Proof.
  intros Hne Hw. destruct w as [|c w]; [contradiction|].
  cbn [all_space] in Hw. apply andb_prop in Hw as [Hc Hw].
  rewrite app_String, sub_unfold, match_space_colon, Hc.
  rewrite (plus_more_space_colon w r Hw).
  rewrite (proj2 (Nat.ltb_lt _ _)); [reflexivity|].
  rewrite string_length_app. simpl. lia.
Qed.

(** ** Tokens: key and value *)

(** The first two pieces of [key : value] followed by nothing or by a
    further [:]. *)
Lemma split_colon_pieces (k v tail : string) :
  free_of ":" k = true -> free_of ":" v = true ->
  tail = "" \/ startswith ":" tail = true ->
  exists more, split ":" (k ++ ":" ++ v ++ tail) = k :: v :: more.
Proof.
  intros Hk Hv Htail.
  change (k ++ ":" ++ v ++ tail) with (k ++ String ":" (v ++ tail)).
  rewrite (split_char_at ":" k _ Hk).
  destruct Htail as [->|Htail].
  - rewrite string_app_nil_r, (split_char_free ":" v Hv). exists []. reflexivity.
  - apply startswith_spec in Htail as [t ->].
    change (v ++ ":" ++ t) with (v ++ String ":" t).
    rewrite (split_char_at ":" v _ Hv). eexists. reflexivity.
Qed.

(** C3, as amended. A token is split on every [:]. The text before the
    first [:], as it stands and not trimmed, is the key: when it is one of
    the six recognized names the record maps it to the text between the
    first [:] and the second (or the end of the token), stripped; when it
    is not, the token is passed over. (A recognized name with no [:] at
    all is the case of C10.) *)
Theorem C3_token_key_and_value (k : string) (rest : list string)
    (d : gmap string string) :
  free_of ":" k = true ->
  (k ∉ recognized -> scan_keys (k :: rest) d = scan_keys rest d) /\
  (forall v tail : string,
     free_of ":" v = true ->
     tail = "" \/ startswith ":" tail = true ->
     scan_keys ((k ++ ":" ++ v ++ tail) :: rest) d =
     if bool_decide (k ∈ recognized)
     then scan_keys rest (<[k := strip v]> d)
     else scan_keys rest d).
Proof.
  intros Hk. split.
  - intros Hnot. cbn [scan_keys].
    rewrite (split_char_free ":" k Hk). cbn [getitem lookup list_lookup].
    rewrite bind_Ok, bool_decide_eq_false_2 by exact Hnot. reflexivity.
  - intros v tail Hv Htail. cbn [scan_keys].
    destruct (split_colon_pieces k v tail Hk Hv Htail) as [more ->].
    cbn [getitem lookup list_lookup]. rewrite bind_Ok.
    destruct (bool_decide (k ∈ recognized)); reflexivity.
Qed.

Lemma C3_witness_type_token :
  free_of ":" "type" = true /\
  scan_keys ["type: Rental "] ∅ = Ok {[ "type" := "Rental" ]} /\
  scan_keys ["type:a:b"] ∅ = Ok {[ "type" := "a" ]}.
Proof.
  split; [reflexivity|]. split.
  - exact (proj2 (C3_token_key_and_value "type" [] ∅ eq_refl)
             " Rental " "" eq_refl (or_introl eq_refl)).
  - exact (proj2 (C3_token_key_and_value "type" [] ∅ eq_refl)
             "a" ":b" eq_refl (or_intror eq_refl)).
Defined.

(** C3, as stated, fails on both counts. The chunk below splits into two
    tokens. The first has a second [:]: the code stores what stands before
    it, not everything after the first [:]. The second has a space before
    a recognized name: the code does not trim the key and passes the token
    over. *)
Lemma C3_counterexample_key_and_value :
  token_lists ["type:a:b, enabled:true"] = [["type:a:b"; " enabled:true"]] /\
  (scan_keys ["type:a:b"] ∅ = Ok {[ "type" := "a" ]} /\
   Described.scan_keys ["type:a:b"] ∅ = {[ "type" := "a:b" ]}) /\
  (scan_keys [" enabled:true"] ∅ = Ok ∅ /\
   Described.scan_keys [" enabled:true"] ∅ = {[ "enabled" := "true" ]}) /\
  (scan_keys ["type:a:b"] ∅ <> Ok (Described.scan_keys ["type:a:b"] ∅) /\
   scan_keys [" enabled:true"] ∅ <> Ok (Described.scan_keys [" enabled:true"] ∅)).
Proof.
  split; [vm_compute; reflexivity|].
  split; [split; vm_compute; reflexivity|].
  split; [split; vm_compute; reflexivity|].
  split; intros H.
  - assert (Some "a" = Some "a:b") as Habs; [|discriminate Habs].
    change (Some "a")
      with (match scan_keys ["type:a:b"] ∅ with
            | Ok d => d !! "type"
            | Raise _ => None
            end).
    rewrite H. vm_compute. reflexivity.
  - assert (@None string = Some "true") as Habs; [|discriminate Habs].
    change (@None string)
      with (match scan_keys [" enabled:true"] ∅ with
            | Ok d => d !! "enabled"
            | Raise _ => None
            end).
    rewrite H. vm_compute. reflexivity.
Qed.

(** ** The validity filter of [valid_searches] *)

Lemma valid_recordb_spec (d : gmap string string) :
  valid_recordb d = true <-> valid_record d.
Proof.
  unfold valid_recordb, valid_record. split.
  - intros H. apply andb_prop in H as [He Hc].
    apply bool_decide_eq_true in He. split; [exact He|].
    destruct (clicks_of d) as [n|e]; [|discriminate].
    exists n. split; [reflexivity | apply Z.leb_le; exact Hc].
  - intros [He [n [Hn Hle]]]. rewrite Hn.
    rewrite bool_decide_eq_true_2 by exact He.
    apply Z.leb_le. exact Hle.
Qed.

(** What the condition of lines 91-92 evaluates to, when it evaluates. *)
Lemma is_valid_Ok (d : gmap string string) (keep : bool) :
  is_valid d = Ok keep -> keep = valid_recordb d.
Proof.
  unfold is_valid, valid_recordb.
  destruct (d !! "enabled") as [enabled|] eqn:He; [|discriminate].
  destruct (String.eqb_spec enabled "true") as [->|Hne].
  - rewrite bool_decide_eq_true_2 by reflexivity.
    destruct (clicks_of d) as [n|e]; simpl; [|discriminate].
    intros H. inversion H. reflexivity.
  - rewrite bool_decide_eq_false_2 by congruence.
    intros H. inversion H. reflexivity.
Qed.

Lemma is_valid_missing (d : gmap string string) :
  d !! "enabled" = None -> is_valid d = Raise KeyError.
Proof. intros H. unfold is_valid. rewrite H. reflexivity. Qed.

(** When the condition evaluates for every record, the loop returns. *)
Lemma is_valid_total (d : gmap string string) :
  is_Some (d !! "enabled") ->
  (d !! "enabled" = Some "true" -> exists n, clicks_of d = Ok n) ->
  is_valid d = Ok (valid_recordb d).
Proof.
  intros [enabled He] Hc. unfold is_valid, valid_recordb. rewrite He.
  destruct (String.eqb_spec enabled "true") as [->|Hne].
  - destruct (Hc He) as [n Hn]. rewrite Hn.
    rewrite bool_decide_eq_true_2 by reflexivity. reflexivity.
  - rewrite bool_decide_eq_false_2 by congruence. reflexivity.
Qed.

Lemma valid_searches_loop (raw : string) :
  valid_searches raw = valid_loop (token_lists (chunks raw)) [].
Proof.
  unfold valid_searches. destruct (chunks raw) as [|c l] eqn:Hc; reflexivity.
Qed.

Lemma valid_loop_filter (items : list (list string))
    (acc vs : list (gmap string string)) :
  valid_loop items acc = Ok vs ->
  exists recs,
    apply (fun item => scan_keys item ∅) items = Ok recs /\
    vs = (acc ++ List.filter valid_recordb recs)%list.
Proof.
  revert acc vs. induction items as [|item items IH]; intros acc vs H.
  - simpl in H. inversion H. exists []. split; [reflexivity|].
    simpl. symmetry. apply app_nil_r.
  - cbn [valid_loop] in H. cbn [apply].
    destruct (scan_keys item ∅) as [d|e]; [|discriminate].
    rewrite bind_Ok in H. rewrite bind_Ok.
    destruct (is_valid d) as [keep|e] eqn:Hk; [|discriminate].
    rewrite bind_Ok in H. apply is_valid_Ok in Hk. subst keep.
    destruct (IH _ _ H) as [recs [Hrecs Hvs]].
    exists (d :: recs). rewrite Hrecs. split; [reflexivity|].
    rewrite Hvs. cbn [List.filter].
    destruct (valid_recordb d); [rewrite <- app_assoc|]; reflexivity.
Qed.

Lemma valid_loop_total (items : list (list string))
    (acc recs : list (gmap string string)) :
  apply (fun item => scan_keys item ∅) items = Ok recs ->
  Forall (fun d => is_Some (d !! "enabled") /\
                   (d !! "enabled" = Some "true" -> exists n, clicks_of d = Ok n))
         recs ->
  valid_loop items acc = Ok (acc ++ List.filter valid_recordb recs)%list.
Proof.
  revert acc recs. induction items as [|item items IH]; intros acc recs Hrecs Hall.
  - simpl in Hrecs. inversion Hrecs. simpl. rewrite app_nil_r. reflexivity.
  - cbn [apply] in Hrecs. cbn [valid_loop].
    destruct (scan_keys item ∅) as [d|e]; [|discriminate].
    rewrite bind_Ok in Hrecs. rewrite bind_Ok.
    destruct (apply (fun item => scan_keys item ∅) items) as [recs'|e] eqn:Hr;
      [|discriminate].
    rewrite bind_Ok in Hrecs. inversion Hrecs; subst recs.
    inversion Hall as [|? ? [Hen Hcl] Hall']; subst.
    rewrite (is_valid_total d Hen Hcl), bind_Ok.
    rewrite (IH _ recs' eq_refl Hall'). cbn [List.filter].
    destruct (valid_recordb d); [rewrite <- app_assoc|]; reflexivity.
Qed.

Lemma filter_valid_Forall (recs : list (gmap string string)) :
  Forall valid_record (List.filter valid_recordb recs).
Proof.
  apply Forall_forall. intros d Hd. apply list_elem_of_In, filter_In in Hd.
  apply valid_recordb_spec. exact (proj2 Hd).
Qed.

(** C1. Whenever [valid_searches] returns, the list it returns is the
    sequence of decoded records filtered by the validity condition: a
    decoded record is kept if and only if its [enabled] is exactly
    ["true"] and the integer value of its [clicks] ([0] when absent) is at
    least 3, so every record handed on satisfies both. *)
Theorem C1_valid_searches_keeps_exactly_valid (raw : string)
    (vs : list (gmap string string)) :
  valid_searches raw = Ok vs ->
  exists recs,
    apply (fun item => scan_keys item ∅) (token_lists (chunks raw)) = Ok recs /\
    vs = List.filter valid_recordb recs /\
    (forall d, d ∈ vs <-> d ∈ recs /\ valid_record d) /\
    Forall valid_record vs.
Proof.
  intros H. rewrite valid_searches_loop in H.
  destruct (valid_loop_filter _ _ _ H) as [recs [Hrecs Hvs]].
  simpl in Hvs. subst vs. exists recs.
  split; [exact Hrecs|]. split; [reflexivity|]. split.
  - intros d. rewrite !list_elem_of_In, filter_In, valid_recordb_spec.
    reflexivity.
  - apply filter_valid_Forall.
Qed.

(** [valid_searches] does return on records that have [enabled] and, when it
    is ["true"], an integer or no [clicks]. *)
Lemma valid_searches_total (raw : string) (recs : list (gmap string string)) :
  apply (fun item => scan_keys item ∅) (token_lists (chunks raw)) = Ok recs ->
  Forall (fun d => is_Some (d !! "enabled") /\
                   (d !! "enabled" = Some "true" -> exists n, clicks_of d = Ok n))
         recs ->
  valid_searches raw = Ok (List.filter valid_recordb recs).
Proof.
  intros Hrecs Hall. rewrite valid_searches_loop.
  apply (valid_loop_total _ [] recs Hrecs Hall).
Qed.

(** One valid record between two that are not: [clicks] below 3, and
    [enabled] other than ["true"]. *)
Lemma C1_witness_three_records :
  let raw := "enabled:true,clicks:2\n-enabled:true,clicks:5\n-enabled:false,clicks:10" in
  let kept : gmap string string := {[ "enabled" := "true"; "clicks" := "5" ]} in
  valid_searches raw = Ok [kept] /\
  exists recs,
    apply (fun item => scan_keys item ∅) (token_lists (chunks raw)) = Ok recs /\
    [kept] = List.filter valid_recordb recs /\
    (forall d, d ∈ [kept] <-> d ∈ recs /\ valid_record d) /\
    Forall valid_record [kept].
Proof.
  assert (valid_searches
            "enabled:true,clicks:2\n-enabled:true,clicks:5\n-enabled:false,clicks:10"
          = Ok [ ({[ "enabled" := "true"; "clicks" := "5" ]} : gmap string string) ])
    as H by (vm_compute; reflexivity).
  exact (conj H (C1_valid_searches_keeps_exactly_valid _ _ H)).
Defined.

(** The three records of the specification's example. *)
Example valid_record_examples :
  is_valid {[ "enabled" := "true"; "clicks" := "5" ]} = Ok true /\
  is_valid {[ "enabled" := "true"; "clicks" := "2" ]} = Ok false /\
  is_valid {[ "enabled" := "false"; "clicks" := "10" ]} = Ok false /\
  is_valid {[ "enabled" := "True"; "clicks" := "10" ]} = Ok false /\
  is_valid {[ "enabled" := "true" ]} = Ok false.
Proof. repeat split; vm_compute; reflexivity. Qed.

(** ** Records that make [valid_searches] raise *)

Lemma valid_loop_raises_at (items : list (list string)) (item : list string)
    (acc : list (gmap string string)) :
  item ∈ items ->
  (forall d, scan_keys item ∅ = Ok d -> exists e, is_valid d = Raise e) ->
  exists e, valid_loop items acc = Raise e.
Proof.
  revert acc. induction items as [|item' items IH]; intros acc Hin Hbad.
  - inversion Hin.
  - cbn [valid_loop].
    destruct (scan_keys item' ∅) as [d|e] eqn:Hd; [|exists e; reflexivity].
    rewrite bind_Ok.
    destruct (is_valid d) as [keep|e] eqn:Hk; [|exists e; reflexivity].
    rewrite bind_Ok.
    apply elem_of_cons in Hin as [->|Hin].
    + destruct (Hbad d Hd) as [e He]. congruence.
    + apply IH; assumption.
Qed.

(** C2. A decoded record without [enabled] is a [KeyError], and the error
    ends [valid_searches] for the whole blob: the record is not passed over
    as an invalid one. *)
Theorem C2_missing_enabled_raises (raw : string) (item : list string)
    (d : gmap string string) :
  item ∈ token_lists (chunks raw) ->
  scan_keys item ∅ = Ok d ->
  d !! "enabled" = None ->
  is_valid d = Raise KeyError /\ exists e, valid_searches raw = Raise e.
Proof.
  intros Hin Hd Hnone. split; [apply is_valid_missing; exact Hnone|].
  rewrite valid_searches_loop. apply (valid_loop_raises_at _ item); [exact Hin|].
  intros d' Hd'. exists KeyError. apply is_valid_missing. congruence.
Qed.

Lemma C2_witness_clicks_only :
  let d : gmap string string := {[ "clicks" := "5" ]} in
  (["clicks:5"] ∈ token_lists (chunks "clicks:5") /\
   scan_keys ["clicks:5"] ∅ = Ok d /\ d !! "enabled" = None) /\
  is_valid d = Raise KeyError /\ exists e, valid_searches "clicks:5" = Raise e.
Proof.
  assert (["clicks:5"] ∈ token_lists (chunks "clicks:5")) as Hin
    by (vm_compute; left).
  assert (scan_keys ["clicks:5"] ∅ = Ok ({[ "clicks" := "5" ]} : gmap string string))
    as Hd by (vm_compute; reflexivity).
  assert (({[ "clicks" := "5" ]} : gmap string string) !! "enabled" = None)
    as Hnone by (vm_compute; reflexivity).
  exact (conj (conj Hin (conj Hd Hnone))
              (C2_missing_enabled_raises _ _ _ Hin Hd Hnone)).
Defined.

(** The empty blob is one empty chunk, hence one empty record. *)
Example valid_searches_empty_blob : valid_searches "" = Raise KeyError.
Proof. vm_compute. reflexivity. Qed.

Lemma getitem_raises {A : Type} (l : list A) (i : nat) (e : exn) :
  getitem l i = Raise e -> e = IndexError.
Proof. unfold getitem. destruct (l !! i); [discriminate|]. congruence. Qed.

(** The only exception of lines 85-90 is the [IndexError] of [[1]]. *)
Lemma scan_keys_raises (item : list string) (d : gmap string string) (e : exn) :
  scan_keys item d = Raise e -> e = IndexError.
Proof.
  revert d. induction item as [|key item IH]; intros d H; [discriminate|].
  cbn [scan_keys] in H.
  destruct (getitem (split ":" key) 0) as [name|e0] eqn:H0;
    [|rewrite bind_Raise in H; inversion H; subst; eapply getitem_raises; eassumption].
  rewrite bind_Ok in H.
  destruct (bool_decide (name ∈ recognized)); [|eapply IH; eassumption].
  rewrite bind_Ok in H.
  destruct (getitem (split ":" key) 1) as [v|e1] eqn:H1.
  - eapply IH. exact H.
  - inversion H; subst. eapply getitem_raises; eassumption.
Qed.

Lemma scan_keys_bare_name (tok : string) (rest : list string)
    (d : gmap string string) :
  tok ∈ recognized -> scan_keys (tok :: rest) d = Raise IndexError.
Proof.
  intros H. unfold recognized in H.
  repeat (apply elem_of_cons in H as [->|H]); try reflexivity.
  inversion H.
Qed.

Lemma scan_keys_bare_anywhere (item : list string) (tok : string)
    (d : gmap string string) :
  tok ∈ item -> tok ∈ recognized -> scan_keys item d = Raise IndexError.
Proof.
  revert d. induction item as [|key item IH]; intros d Hin Hrec; [inversion Hin|].
  apply elem_of_cons in Hin as [->|Hin]; [apply scan_keys_bare_name; exact Hrec|].
  destruct (scan_keys (key :: item) d) as [d'|e] eqn:H.
  - cbn [scan_keys] in H.
    destruct (getitem (split ":" key) 0) as [name|e0]; [|discriminate].
    rewrite bind_Ok in H.
    destruct (bool_decide (name ∈ recognized)).
    + rewrite bind_Ok in H.
      destruct (getitem (split ":" key) 1) as [v|e1]; [|discriminate].
      cbn in H. rewrite (IH _ Hin Hrec) in H. discriminate.
    + rewrite (IH _ Hin Hrec) in H. discriminate.
  - f_equal. eapply scan_keys_raises. exact H.
Qed.

(** C10. A token list with a token that is exactly one of the six
    recognized names, with no [:], raises [IndexError] at [[1]], and
    [valid_searches] of a blob with such a token list does not return. *)
Theorem C10_bare_field_name_raises (raw : string) (item : list string)
    (tok : string) :
  item ∈ token_lists (chunks raw) ->
  tok ∈ item ->
  tok ∈ recognized ->
  scan_keys item ∅ = Raise IndexError /\ exists e, valid_searches raw = Raise e.
Proof.
  intros Hitem Htok Hrec.
  pose proof (scan_keys_bare_anywhere item tok ∅ Htok Hrec) as Hscan.
  split; [exact Hscan|].
  rewrite valid_searches_loop. apply (valid_loop_raises_at _ item); [exact Hitem|].
  intros d Hd. congruence.
Qed.

Lemma C10_witness_bare_enabled :
  (["clicks:5"; "enabled"] ∈ token_lists (chunks "clicks:5,enabled") /\
   "enabled" ∈ ["clicks:5"; "enabled"] /\ "enabled" ∈ recognized) /\
  scan_keys ["clicks:5"; "enabled"] ∅ = Raise IndexError /\
  exists e, valid_searches "clicks:5,enabled" = Raise e.
Proof.
  assert (["clicks:5"; "enabled"] ∈ token_lists (chunks "clicks:5,enabled"))
    as Hitem by (vm_compute; left).
  assert ("enabled" ∈ ["clicks:5"; "enabled"]) as Htok by (right; left).
  assert ("enabled" ∈ recognized) as Hrec by (right; left).
  exact (conj (conj Hitem (conj Htok Hrec))
              (C10_bare_field_name_raises _ _ _ Hitem Htok Hrec)).
Defined.

Example valid_searches_bare_enabled :
  valid_searches "clicks:5,enabled" = Raise IndexError.
Proof. vm_compute. reflexivity. Qed.

(** ** From the blob to the token lists *)

Lemma filter_idempotent {A : Type} (f : A -> bool) (l : list A) :
  filter (fun x => f x) (filter (fun x => f x) l) = filter (fun x => f x) l.
Proof.
  induction l as [|x l IH]; [reflexivity|].
  rewrite filter_cons. destruct (decide (f x)) as [Hx|Hx].
  - rewrite filter_cons. destruct (decide (f x)); [|contradiction].
    rewrite IH. reflexivity.
  - exact IH.
Qed.

Lemma token_lists_chunks (raw : string) :
  token_lists (chunks raw) =
  map (fun chunk =>
         split "," (Re.sub re_space_colon "," (Re.sub re_escapes " " chunk)))
      (chunks raw).
Proof.
  unfold token_lists, chunks.
  rewrite (filter_idempotent (fun item => negb (startswith "---" item))).
  rewrite !map_map. reflexivity.
Qed.

Lemma separator_nonempty : "\n-" <> "".
Proof. discriminate. Qed.

Lemma comma_nonempty : "," <> "".
Proof. discriminate. Qed.

(** C8, as amended. The decoder cuts the blob at every occurrence of the
    three characters backslash, [n], dash; drops the chunks that start with
    [---]; returns the empty list when none is left; otherwise rewrites
    each chunk left: a backslash followed by any one character other than
    a newline and then [n] becomes one space, any other backslash becomes
    one space, then every run of whitespace that ends at a [:] becomes,
    with that [:], one comma; and the chunk is cut at every comma into its
    tokens. *)
Theorem C8_decoder_chunks_and_tokens (raw : string) :
  (join "\n-" (split "\n-" raw) = raw /\
   Forall (fun chunk => contains "\n-" chunk = false) (split "\n-" raw)) /\
  (chunks raw =
     filter (fun chunk => negb (startswith "---" chunk)) (split "\n-" raw) /\
   (chunks raw = [] -> valid_searches raw = Ok [])) /\
  valid_searches raw =
    valid_loop
      (map (fun chunk =>
              split "," (Re.sub re_space_colon "," (Re.sub re_escapes " " chunk)))
           (chunks raw)) [] /\
  ((forall c r, c <> backslash ->
      Re.sub re_escapes " " (String c r) = String c (Re.sub re_escapes " " r)) /\
   (forall d r, d <> newline ->
      Re.sub re_escapes " " (String backslash (String d (String "n" r))) =
      " " ++ Re.sub re_escapes " " r) /\
   (forall r, any_then_n r = false ->
      Re.sub re_escapes " " (String backslash r) =
      " " ++ Re.sub re_escapes " " r)) /\
  ((forall w r, w <> "" -> all_space w = true ->
      Re.sub re_space_colon "," (w ++ String ":" r) =
      "," ++ Re.sub re_space_colon "," r) /\
   (forall c r, is_space c = false \/ space_then_colon r = false ->
      Re.sub re_space_colon "," (String c r) =
      String c (Re.sub re_space_colon "," r))) /\
  (forall s, join "," (split "," s) = s /\
             Forall (fun token => contains "," token = false) (split "," s)).
Proof.
  split; [split|].
  { apply join_split, separator_nonempty. }
  { apply split_free, separator_nonempty. }
  split; [split|].
  { reflexivity. }
  { intros H. unfold valid_searches. rewrite H. reflexivity. }
  split.
  { rewrite valid_searches_loop, token_lists_chunks. reflexivity. }
  split; [|split].
  { split; [exact sub_escapes_other|].
    split; [exact sub_escapes_triple | exact sub_escapes_lone]. }
  { split; [exact sub_space_colon_run | exact sub_space_colon_keep]. }
  intros s. split.
  - apply join_split, comma_nonempty.
  - apply split_free, comma_nonempty.
Qed.

(** A blob in the layout the patterns are written for. *)
Example token_lists_two_searches :
  token_lists
    (chunks "---\\n- :search_id: 1\\n  :enabled: true\\n- :search_id: 2\\n  :clicks: 3")
  = [ [""; "search_id: 1"; "enabled: true "];
      [""; "search_id: 2"; "clicks: 3"] ].
Proof. vm_compute. reflexivity. Qed.

(** C8, as stated, fails where the character after the backslash is not a
    dot: the pattern's [.] stands for any character. On backslash,
    backslash, [n] the code writes one space; replacing the literal
    backslash-dot-[n] or else a lone backslash writes two spaces and keeps
    the [n], which then ends up in the value of [search_id]. *)
Lemma C8_counterexample_any_character :
  (Re.sub re_escapes " " "\\n" = " " /\
   Re.sub Described.re_escapes " " "\\n" = "  n") /\
  (token_lists [" :search_id: 1\\n  :enabled: true"]
   = [[""; "search_id: 1"; "enabled: true"]] /\
   Described.token_lists [" :search_id: 1\\n  :enabled: true"]
   = [[""; "search_id: 1  n"; "enabled: true"]]) /\
  token_lists [" :search_id: 1\\n  :enabled: true"]
  <> Described.token_lists [" :search_id: 1\\n  :enabled: true"].
Proof.
  repeat split; try (vm_compute; reflexivity).
  vm_compute. discriminate.
Qed.

(** ** [avg_listings_sent] *)

Lemma avg_loop_sums (vs : list (gmap string string)) (values : list Z)
    (num_listings listings : Z) :
  apply int_of_str (omap (nonempty_field "listings_sent") vs) = Ok values ->
  avg_loop vs num_listings listings =
  Ok (num_listings + Z.of_nat (length values), listings + foldr Z.add 0 values).
Proof.
  revert values num_listings listings.
  induction vs as [|item vs IH]; intros values num_listings listings H.
  - simpl in H. inversion H. simpl. do 2 f_equal; lia.
  - simpl in H. simpl avg_loop. unfold nonempty_field in H at 1.
    destruct (item !! "listings_sent") as [[|c r]|].
    + apply IH. exact H.
    + simpl in H.
      destruct (int_of_str (String c r)) as [n|e]; simpl in H; [|discriminate].
      match type of H with
      | context [apply int_of_str ?l] =>
          destruct (apply int_of_str l) as [ns|e] eqn:Hns
      end; simpl in H; [|discriminate].
      inversion H; subst values. simpl.
      rewrite (IH ns) by exact Hns.
      do 2 f_equal; simpl length; lia.
    + apply IH. exact H.
Qed.

(** A [listings_sent] that is not an integer ends [avg_listings_sent] with
    the conversion error. *)
Lemma avg_loop_raises (vs : list (gmap string string)) (e : exn)
    (num_listings listings : Z) :
  apply int_of_str (omap (nonempty_field "listings_sent") vs) = Raise e ->
  avg_loop vs num_listings listings = Raise e.
Proof.
  revert num_listings listings.
  induction vs as [|item vs IH]; intros num_listings listings H.
  - discriminate.
  - simpl in H. simpl avg_loop. unfold nonempty_field in H at 1.
    destruct (item !! "listings_sent") as [[|c r]|].
    + apply IH. exact H.
    + simpl in H.
      destruct (int_of_str (String c r)) as [n|e']; simpl in *.
      * match type of H with
        | context [apply int_of_str ?l] =>
            destruct (apply int_of_str l) as [ns|e''] eqn:Hns
        end; simpl in H; [discriminate|].
        inversion H; subst e''. apply IH. exact Hns.
      * inversion H. reflexivity.
    + apply IH. exact H.
Qed.

Lemma fits_64_bits_true (z : Z) :
  fits_64_bits z = true <-> - 2 ^ 63 <= z < 2 ^ 64.
Proof.
  unfold fits_64_bits. rewrite andb_true_iff, Z.leb_le, Z.ltb_lt. reflexivity.
Qed.

Lemma fits_64_bits_false (z : Z) :
  fits_64_bits z = false <-> z < - 2 ^ 63 \/ 2 ^ 64 <= z.
Proof.
  unfold fits_64_bits. rewrite andb_false_iff, Z.leb_gt, Z.ltb_ge. reflexivity.
Qed.

(** C4, as amended. Over the valid searches whose [listings_sent] is there
    and not empty, [avg_listings_sent] sums the integer values and counts
    them. With none to count it returns the integer [0]. Otherwise it
    returns the sum divided by the count, rounded to 2 decimal places by
    [np.round]: the quotient is that of the two as [float64]s when the sum
    fits a signed or unsigned 64-bit integer, and beyond that Python's own
    division of the two integers, which raises [OverflowError] when the
    quotient does not fit a [float]. *)
Theorem C4_avg_listings_sent_nonempty (vs : list (gmap string string))
    (values : list Z) :
  apply int_of_str (omap (nonempty_field "listings_sent") vs) = Ok values ->
  let listings := foldr Z.add 0 values in
  let num_listings := Z.of_nat (length values) in
  (length values = 0%nat -> avg_listings_sent vs = Ok (PyInt 0)) /\
  (length values <> 0%nat -> - 2 ^ 63 <= listings < 2 ^ 64 ->
   avg_listings_sent vs =
   Ok (NpFloat
         (np_round2
            (PrimFloat.div (float_of_Z listings) (float_of_Z num_listings))))) /\
  (length values <> 0%nat -> listings < - 2 ^ 63 \/ 2 ^ 64 <= listings ->
   avg_listings_sent vs =
   (q ← int_true_divide listings num_listings; Ok (NpFloat (np_round2 q)))).
Proof.
  intros H listings num_listings.
  assert (avg_listings_sent vs =
          if 0 <? num_listings then rounded_mean listings num_listings
          else Ok (PyInt 0)) as Havg.
  { unfold avg_listings_sent. rewrite (avg_loop_sums vs values 0 0 H).
    rewrite bind_Ok. cbn [fst snd]. rewrite !Z.add_0_l. reflexivity. }
  rewrite Havg. unfold rounded_mean, sum_true_divide. split; [|split].
  - intros Hlen. subst num_listings. rewrite Hlen. reflexivity.
  - intros Hlen Hfits.
    rewrite (proj2 (Z.ltb_lt 0 num_listings)) by (subst num_listings; lia).
    rewrite (proj2 (fits_64_bits_true listings) Hfits). reflexivity.
  - intros Hlen Hfits.
    rewrite (proj2 (Z.ltb_lt 0 num_listings)) by (subst num_listings; lia).
    rewrite (proj2 (fits_64_bits_false listings) Hfits). reflexivity.
Qed.

(** The values 10 and 20 give 15.0. *)
Lemma C4_witness_10_20 :
  let vs : list (gmap string string) :=
    [ {[ "listings_sent" := "10" ]}; {[ "listings_sent" := "20" ]} ] in
  apply int_of_str (omap (nonempty_field "listings_sent") vs) = Ok [10; 20] /\
  avg_listings_sent vs = Ok (NpFloat 15%float).
Proof.
  intros vs.
  assert (apply int_of_str (omap (nonempty_field "listings_sent") vs)
          = Ok [10; 20]) as H by (vm_compute; reflexivity).
  split; [exact H|].
  refine (eq_trans
            (proj1 (proj2 (C4_avg_listings_sent_nonempty vs [10; 20] H)) _ _) _).
  - discriminate.
  - split; [apply Z.leb_le | apply Z.ltb_lt]; vm_compute; reflexivity.
  - vm_compute. reflexivity.
Defined.

(** The values 1, 1 and 2 give 1.33, the [float64] of 133 / 100. *)
Example avg_listings_sent_rounds :
  avg_listings_sent
    [ {[ "listings_sent" := "1" ]}; {[ "listings_sent" := "1" ]};
      {[ "listings_sent" := "2" ]} ]
  = Ok (NpFloat (133 / 100)%float).
Proof. vm_compute. reflexivity. Qed.

(** No valid search with a [listings_sent]: the integer [0]. *)
Example avg_listings_sent_none :
  avg_listings_sent [ {[ "enabled" := "true"; "clicks" := "4" ]} ] = Ok (PyInt 0).
Proof. vm_compute. reflexivity. Qed.

(** At the ends of the 64-bit ranges the sum is converted as it is. *)
Example avg_listings_sent_64_bits :
  avg_listings_sent [ {[ "listings_sent" := "9223372036854775808" ]} ]
  = Ok (NpFloat 9223372036854775808%float) /\
  avg_listings_sent [ {[ "listings_sent" := "-9223372036854775808" ]} ]
  = Ok (NpFloat (-9223372036854775808)%float) /\
  avg_listings_sent [ {[ "listings_sent" := "9223372036854775807" ]};
                      {[ "listings_sent" := "1" ]} ]
  = Ok (NpFloat 4611686018427387904%float).
Proof. repeat split; vm_compute; reflexivity. Qed.

(** C4, as stated, fails on a valid search whose [listings_sent] is there
    and empty: the blob below decodes to two valid searches that both have
    the field, with values [''] and ['10']; the code leaves the first out
    of both the sum and the count and returns 10.0, which is not a sum
    over the two of them divided by 2. It fails as well on a
    [listings_sent] of 401 digits, where the code returns no number: the
    division raises [OverflowError]. *)
Lemma C4_counterexample_empty_listings_sent :
  let first : gmap string string :=
    {[ "enabled" := "true"; "clicks" := "5"; "listings_sent" := "" ]} in
  let second : gmap string string :=
    {[ "enabled" := "true"; "clicks" := "5"; "listings_sent" := "10" ]} in
  let huge : gmap string string :=
    {[ "enabled" := "true"; "clicks" := "5";
       "listings_sent" := "10000000000000000000000000000000000000000000000000000000000000000000000000000000000000000000000000000000000000000000000000000000000000000000000000000000000000000000000000000000000000000000000000000000000000000000000000000000000000000000000000000000000000000000000000000000000000000000000000000000000000000000000000000000000000000000000000000000000000000000000000000000000000000000000000000000000000000" ]} in
  (valid_searches
     "enabled:true,clicks:5,listings_sent:\n-enabled:true,clicks:5,listings_sent:10"
   = Ok [first; second] /\
   first !! "listings_sent" = Some "" /\
   avg_listings_sent [first; second] = Ok (NpFloat 10%float) /\
   Described.avg_listings [first; second] = Raise ValueError /\
   avg_listings_sent [first; second] <> Described.avg_listings [first; second]) /\
  (avg_listings_sent [huge] = Raise OverflowError /\
   Described.avg_listings [huge] = Ok (NpFloat infinity)).
Proof.
  split.
  - repeat split; try (vm_compute; reflexivity).
    vm_compute. discriminate.
  - split; vm_compute; reflexivity.
Qed.

(** ** [type_of_search] *)

Lemma type_loop_counts (vs : list (gmap string string)) (rental sale : Z) :
  type_loop vs rental sale =
  (rental + Z.of_nat (length (filter (fun item => item !! "type" = Some "Rental") vs)),
   sale + Z.of_nat (length (filter (fun item => item !! "type" = Some "Sale") vs))).
Proof.
  revert rental sale. induction vs as [|item vs IH]; intros rental sale; simpl.
  - f_equal; lia.
  - rewrite !filter_cons.
    destruct (decide (item !! "type" = Some "Rental")) as [Hr|Hr].
    + rewrite bool_decide_eq_true_2 by exact Hr.
      destruct (decide (item !! "type" = Some "Sale")) as [Hs|Hs];
        [congruence|].
      rewrite IH. simpl length. f_equal; lia.
    + rewrite bool_decide_eq_false_2 by exact Hr.
      destruct (decide (item !! "type" = Some "Sale")) as [Hs|Hs].
      * rewrite bool_decide_eq_true_2 by exact Hs.
        rewrite IH. simpl length. f_equal; lia.
      * rewrite bool_decide_eq_false_2 by exact Hs.
        apply IH.
Qed.

(** C5. [type_of_search] counts the valid searches whose [type] is exactly
    ["Rental"] and those whose [type] is exactly ["Sale"] (any other value,
    or no [type], counts for neither) and returns ["rental_and_sale"] when
    both counts are positive, ["rental"] when only the first is, ["sale"]
    when only the second is, and ["none"] otherwise. *)
Theorem C5_type_of_search_counts (vs : list (gmap string string)) :
  let rental := length (filter (fun item => item !! "type" = Some "Rental") vs) in
  let sale := length (filter (fun item => item !! "type" = Some "Sale") vs) in
  type_of_search vs =
  if ((0 <? rental) && (0 <? sale))%nat then "rental_and_sale"
  else if (0 <? rental)%nat then "rental"
  else if (0 <? sale)%nat then "sale"
  else "none".
Proof.
  intros rental sale. unfold type_of_search.
  rewrite type_loop_counts. fold rental sale. simpl fst. simpl snd.
  destruct (Nat.ltb_spec 0 rental) as [Hr|Hr];
    destruct (Nat.ltb_spec 0 sale) as [Hs|Hs]; simpl andb;
    repeat match goal with
    | |- context [0 <? ?z] => destruct (Z.ltb_spec 0 z); try lia
    end; reflexivity.
Qed.

(** The cases the specification lists. *)
Example type_of_search_rental :
  type_of_search [ {[ "type" := "Rental" ]} ] = "rental".
Proof. vm_compute. reflexivity. Qed.

Example type_of_search_both :
  type_of_search [ {[ "type" := "Rental" ]}; {[ "type" := "Sale" ]} ]
  = "rental_and_sale".
Proof. vm_compute. reflexivity. Qed.

Example type_of_search_none :
  type_of_search [] = "none" /\
  type_of_search [ {[ "type" := "rental" ]}; ∅ ] = "none".
Proof. split; vm_compute; reflexivity. Qed.

(** ** [list_of_valid_searches] *)

Lemma list_loop_omap (vs : list (gmap string string)) (acc : list string) :
  list_loop vs acc = (acc ++ omap (nonempty_field "search_id") vs)%list.
Proof.
  revert acc. induction vs as [|item vs IH]; intros acc; simpl.
  - symmetry. apply app_nil_r.
  - unfold nonempty_field at 1.
    destruct (item !! "search_id") as [[|c r]|]; rewrite IH.
    + reflexivity.
    + rewrite <- app_assoc. reflexivity.
    + reflexivity.
Qed.

(** C9, as amended. [list_of_valid_searches] returns, in the order of the
    valid searches, the [search_id] of exactly those whose [search_id] is
    there and is not the empty string; the others are skipped, with no
    placeholder. *)
Theorem C9_list_of_valid_searches_nonempty (vs : list (gmap string string)) :
  list_of_valid_searches vs = omap (nonempty_field "search_id") vs.
Proof. unfold list_of_valid_searches. apply list_loop_omap. Qed.

(** C9, as stated, fails on a valid search whose [search_id] is there and
    empty: the blob below decodes to one such search, which has the field
    and is left out of the list. *)
Lemma C9_counterexample_empty_search_id :
  let item : gmap string string :=
    {[ "search_id" := ""; "enabled" := "true"; "clicks" := "5" ]} in
  valid_searches "search_id:,enabled:true,clicks:5" = Ok [item] /\
  item !! "search_id" = Some "" /\
  list_of_valid_searches [item] = [] /\
  Described.list_of_valid_searches [item] = [""] /\
  list_of_valid_searches [item] <> Described.list_of_valid_searches [item].
Proof.
  repeat split; try (vm_compute; reflexivity).
  vm_compute. discriminate.
Qed.

(** ** The two tables of [execute] *)

Lemma length_infer_column (col : list number) :
  length (infer_column col) = length col.
Proof.
  unfold infer_column. destruct (existsb is_float col); [|reflexivity].
  apply length_map.
Qed.

Lemma execute_unfold (data : list (string * string)) :
  execute data =
  (valid ← apply valid_searches (data.*2);
   avg ← apply avg_listings_sent ((retained data valid).*2);
   Ok (zip_with summary_of (retained data valid) (infer_column avg),
       unique_ids
         (zip_with summary_of (retained data valid) (infer_column avg)))).
Proof. reflexivity. Qed.

Lemma execute_Ok (data : list (string * string)) (rows : list summary_row)
    (ids : list string) :
  execute data = Ok (rows, ids) ->
  exists valid avg,
    apply valid_searches (data.*2) = Ok valid /\
    apply avg_listings_sent ((retained data valid).*2) = Ok avg /\
    rows = zip_with summary_of (retained data valid) (infer_column avg) /\
    ids = unique_ids rows.
Proof.
  rewrite execute_unfold. intros H.
  destruct (apply valid_searches (data.*2)) as [valid|e] eqn:Hv; [|discriminate].
  rewrite bind_Ok in H.
  destruct (apply avg_listings_sent ((retained data valid).*2)) as [avg|e]
    eqn:Ha; [|discriminate].
  rewrite bind_Ok in H. inversion H; subst.
  exists valid, avg. split; [reflexivity|]. split; [exact Ha|].
  split; reflexivity.
Qed.

(** A row with no valid search is not among the rows kept. *)
Lemma retained_drop (pre post : list (string * string)) (u blob : string)
    (v1 v2 : list (list (gmap string string))) :
  length v1 = length pre ->
  retained (pre ++ (u, blob) :: post) (v1 ++ [] :: v2) =
  retained (pre ++ post) (v1 ++ v2).
Proof.
  intros Hlen. unfold retained.
  rewrite !fmap_app, fmap_cons.
  rewrite !zip_with_app by (rewrite length_fmap; symmetry; exact Hlen).
  rewrite !filter_app. f_equal.
Qed.

Lemma retained_positive (data : list (string * string))
    (valid : list (list (gmap string string))) :
  Forall (fun r => (0 < length r.2)%nat) (retained data valid).
Proof.
  apply Forall_forall. intros r Hr. unfold retained in Hr.
  apply list_elem_of_filter in Hr as [Hr _].
  apply Is_true_true, Nat.ltb_lt in Hr. exact Hr.
Qed.

(** C6. An input row whose blob decodes to no valid search leaves no trace
    in what [execute] produces: the tables, or the error, are those of
    the input without that row, and every row of the summary table has at
    least one valid search. Decoding to an empty list is not an error. *)
Theorem C6_row_without_valid_search_excluded
    (pre post : list (string * string)) (u blob : string) :
  valid_searches blob = Ok [] ->
  execute (pre ++ (u, blob) :: post) = execute (pre ++ post) /\
  (forall rows ids,
     execute (pre ++ (u, blob) :: post) = Ok (rows, ids) ->
     Forall (fun row => (0 < row_num_valid_searches row)%nat) rows /\
     (length rows <= length pre + length post)%nat) /\
  (forall raw, chunks raw = [] -> valid_searches raw = Ok []).
Proof.
  intros Hblob.
  assert (execute (pre ++ (u, blob) :: post) = execute (pre ++ post)) as Heq.
  { rewrite !execute_unfold. rewrite !fmap_app, fmap_cons, !apply_app.
    destruct (apply valid_searches (pre.*2)) as [v1|e] eqn:H1; [|reflexivity].
    rewrite !bind_Ok. cbn [apply snd]. rewrite Hblob, bind_Ok.
    destruct (apply valid_searches (post.*2)) as [v2|e] eqn:H2; [|reflexivity].
    rewrite !bind_Ok.
    apply apply_length in H1. rewrite length_fmap in H1.
    rewrite (retained_drop pre post u blob v1 v2 H1). reflexivity. }
  split; [exact Heq|].
  split; [|intros raw Hraw; unfold valid_searches; rewrite Hraw; reflexivity].
  intros rows ids H. split.
  - destruct (execute_Ok _ _ _ H) as [valid [avg [_ [_ [-> _]]]]].
    eapply Forall_zip_with_fst; [apply retained_positive|].
    apply Forall_forall. intros a _ r Hr. exact Hr.
  - rewrite Heq in H.
    destruct (execute_Ok _ _ _ H) as [valid [avg [Hv [_ [-> _]]]]].
    rewrite length_zip_with. unfold retained.
    etransitivity; [apply Nat.le_min_l|].
    etransitivity; [apply length_filter|].
    rewrite length_zip_with, length_fmap, length_app. apply Nat.le_min_l.
Qed.

(** A blob that is only the [---] header decodes to the empty list, and
    its row is dropped. *)
Lemma C6_witness_header_only :
  valid_searches "---" = Ok [] /\
  execute ([("u1", "enabled:true,clicks:3")] ++ ("u2", "---") :: [])
  = execute ([("u1", "enabled:true,clicks:3")] ++ []) /\
  (forall rows ids,
     execute ([("u1", "enabled:true,clicks:3")] ++ ("u2", "---") :: [])
     = Ok (rows, ids) ->
     Forall (fun row => (0 < row_num_valid_searches row)%nat) rows /\
     (length rows <= 1 + 0)%nat) /\
  (forall raw, chunks raw = [] -> valid_searches raw = Ok []).
Proof.
  assert (valid_searches "---" = Ok []) as H by (vm_compute; reflexivity).
  exact (conj H
           (C6_row_without_valid_search_excluded
              [("u1", "enabled:true,clicks:3")] [] "u2" "---" H)).
Defined.

Example execute_drops_rows :
  execute [ ("u1", "enabled:true,clicks:1"); ("u2", "---");
            ("u3", "search_id:7,enabled:true,clicks:3,type:Sale") ]
  = Ok ([ {| row_user_id := "u3";
             row_num_valid_searches := 1;
             row_avg_listings := PyInt 0;
             row_type_of_search := "sale";
             row_list_of_valid_searches := ["7"] |} ],
        ["7"]).
Proof. vm_compute. reflexivity. Qed.

Lemma elem_of_add_sublist (x : string) (acc : gset string) (l : list string) :
  x ∈ add_sublist acc l <->
  x ∈ acc \/ exists id, id ∈ l /\ x = Re.sub re_quote "" id.
Proof.
  unfold add_sublist. revert acc. induction l as [|a l IH]; intros acc.
  - simpl. split; [intros H; left; exact H|].
    intros [H|[id [H _]]]; [exact H | inversion H].
  - cbn [foldl]. rewrite IH, elem_of_union, elem_of_singleton. split.
    + intros [[H|H]|[id [Hid Hx]]].
      * left. exact H.
      * right. exists a. split; [left | exact H].
      * right. exists id. split; [right; exact Hid | exact Hx].
    + intros [H|[id [Hid Hx]]]; [left; left; exact H|].
      apply elem_of_cons in Hid as [->|Hid].
      * left. right. exact Hx.
      * right. exists id. split; assumption.
Qed.

Lemma elem_of_foldl_add_sublist (x : string) (acc : gset string)
    (ls : list (list string)) :
  x ∈ foldl add_sublist acc ls <->
  x ∈ acc \/ exists l id, l ∈ ls /\ id ∈ l /\ x = Re.sub re_quote "" id.
Proof.
  revert acc. induction ls as [|l ls IH]; intros acc.
  - simpl. split; [intros H; left; exact H|].
    intros [H|[l [id [H _]]]]; [exact H | inversion H].
  - cbn [foldl]. rewrite IH, elem_of_add_sublist. split.
    + intros [[H|[id [Hid Hx]]]|[l' [id [Hl [Hid Hx]]]]].
      * left. exact H.
      * right. exists l, id. split; [left|]. split; assumption.
      * right. exists l', id. split; [right; exact Hl|]. split; assumption.
    + intros [H|[l' [id [Hl [Hid Hx]]]]]; [left; left; exact H|].
      apply elem_of_cons in Hl as [->|Hl].
      * left. right. exists id. split; assumption.
      * right. exists l', id. split; [exact Hl|]. split; assumption.
Qed.

Lemma elem_of_unique_ids (x : string) (rows : list summary_row) :
  x ∈ unique_ids rows <->
  exists row id,
    row ∈ rows /\ id ∈ row_list_of_valid_searches row /\ x = without "'" id.
Proof.
  unfold unique_ids. rewrite elem_of_elements, elem_of_foldl_add_sublist. split.
  - intros [H|[l [id [Hl [Hid Hx]]]]]; [apply elem_of_empty in H; contradiction|].
    apply list_elem_of_In, in_map_iff in Hl as [row [<- Hrow]].
    exists row, id. split; [apply list_elem_of_In; exact Hrow|].
    split; [exact Hid|]. rewrite <- sub_quote_without. exact Hx.
  - intros [row [id [Hrow [Hid Hx]]]]. right.
    exists (row_list_of_valid_searches row), id.
    split; [apply list_elem_of_In, in_map, list_elem_of_In; exact Hrow|].
    split; [exact Hid|]. rewrite sub_quote_without. exact Hx.
Qed.

(** C7. The unique-search table holds exactly the [search_id] values of the
    [list_of_valid_searches] of the rows of the summary table, each with
    every single quote taken out, and it holds none of them twice. *)
Theorem C7_unique_search_ids (data : list (string * string))
    (rows : list summary_row) (ids : list string) :
  execute data = Ok (rows, ids) ->
  NoDup ids /\
  (forall x,
     x ∈ ids <->
     exists row id,
       row ∈ rows /\ id ∈ row_list_of_valid_searches row /\
       x = without "'" id) /\
  Forall (fun x => free_of "'" x = true) ids.
Proof.
  intros H. destruct (execute_Ok _ _ _ H) as [valid [avg [_ [_ [_ ->]]]]].
  split; [unfold unique_ids; apply NoDup_elements|].
  split; [intros x; apply elem_of_unique_ids|].
  apply Forall_forall. intros x Hx.
  apply elem_of_unique_ids in Hx as [row [id [_ [_ ->]]]].
  apply without_free.
Qed.

(** Two users with the same id up to a quote: one row in the table. *)
Lemma C7_witness_quoted_id :
  let data :=
    [ ("u1", "search_id:abc'123,enabled:true,clicks:3");
      ("u2", "search_id:abc123,enabled:true,clicks:4") ] in
  let rows :=
    [ {| row_user_id := "u1"; row_num_valid_searches := 1;
         row_avg_listings := PyInt 0; row_type_of_search := "none";
         row_list_of_valid_searches := ["abc'123"] |};
      {| row_user_id := "u2"; row_num_valid_searches := 1;
         row_avg_listings := PyInt 0; row_type_of_search := "none";
         row_list_of_valid_searches := ["abc123"] |} ] in
  execute data = Ok (rows, ["abc123"]) /\
  NoDup ["abc123"] /\
  (forall x,
     x ∈ ["abc123"] <->
     exists row id,
       row ∈ rows /\ id ∈ row_list_of_valid_searches row /\
       x = without "'" id) /\
  Forall (fun x => free_of "'" x = true) ["abc123"].
Proof.
  intros data rows.
  assert (execute data = Ok (rows, ["abc123"])) as H by (vm_compute; reflexivity).
  exact (conj H (C7_unique_search_ids data rows ["abc123"] H)).
Defined.

(** * Further properties of the operator *)

(** ** What a string is free of *)

Lemma free_of_app (c : ascii) (a b : string) :
  free_of c (a ++ b) = free_of c a && free_of c b.
Proof.
  induction a as [|d a IH]; string_app; [reflexivity|].
  cbn [free_of]. rewrite IH, andb_assoc. reflexivity.
Qed.

Lemma free_of_join (c : ascii) (sep : string) (l : list string) :
  free_of c (join sep l) = true -> Forall (fun x => free_of c x = true) l.
Proof.
  induction l as [|x l IH]; intros H; [constructor|].
  destruct l as [|y l].
  - constructor; [exact H | constructor].
  - rewrite join_cons in H by discriminate.
    rewrite !free_of_app in H.
    apply andb_prop in H as [Hx H]. apply andb_prop in H as [_ H].
    constructor; [exact Hx | apply IH; exact H].
Qed.

(** The pieces of [split] have no character the string has not. *)
Lemma free_of_split (c : ascii) (sep s : string) :
  sep <> "" -> free_of c s = true ->
  Forall (fun x => free_of c x = true) (split sep s).
Proof.
  intros Hsep H. apply (free_of_join c sep).
  rewrite join_split by exact Hsep. exact H.
Qed.

Lemma contains_char (c : ascii) (s : string) :
  contains (String c "") s = negb (free_of c s).
Proof.
  induction s as [|d s IH]; [reflexivity|].
  cbn [contains free_of]. rewrite IH. unfold startswith.
  rewrite strip_prefix_char.
  destruct (Ascii.eqb c d); reflexivity.
Qed.

Lemma split_char_pieces_free (c : ascii) (s : string) :
  Forall (fun x => free_of c x = true) (split (String c "") s).
Proof.
  pose proof (split_free (String c "") (char_sep_nonempty c) s) as H.
  eapply Forall_impl; [exact H|].
  intros x Hx. cbv beta in Hx. rewrite contains_char in Hx.
  apply negb_false_iff. exact Hx.
Qed.

Lemma free_of_lstrip (c : ascii) (s : string) :
  free_of c s = true -> free_of c (lstrip s) = true.
Proof.
  induction s as [|d s IH]; intros H; [reflexivity|].
  cbn [lstrip]. destruct (is_space d); [|exact H].
  cbn [free_of] in H. apply andb_prop in H as [_ H]. apply IH. exact H.
Qed.

Lemma free_of_rstrip (c : ascii) (s : string) :
  free_of c s = true -> free_of c (rstrip s) = true.
Proof.
  induction s as [|d s IH]; intros H; [reflexivity|].
  cbn [free_of] in H. apply andb_prop in H as [Hd H].
  specialize (IH H). cbn [rstrip].
  destruct (rstrip s) as [|e r'].
  - destruct (is_space d); [reflexivity|].
    cbn [free_of]. rewrite Hd. reflexivity.
  - cbn [free_of] in *. rewrite Hd. exact IH.
Qed.

Lemma free_of_strip (c : ascii) (s : string) :
  free_of c s = true -> free_of c (strip s) = true.
Proof. intros H. apply free_of_rstrip, free_of_lstrip. exact H. Qed.

Lemma lstrip_tight (s : string) : starts_tight (lstrip s).
Proof.
  induction s as [|c s IH]; [exact I|].
  cbn [lstrip]. destruct (is_space c) eqn:Hc; [exact IH | exact Hc].
Qed.

Lemma rstrip_cons_tight (c : ascii) (s : string) :
  is_space c = false -> rstrip (String c s) = String c (rstrip s).
Proof.
  intros Hc. cbn [rstrip]. destruct (rstrip s); [rewrite Hc|]; reflexivity.
Qed.

Lemma lstrip_of_tight (s : string) : starts_tight s -> lstrip s = s.
Proof.
  destruct s as [|c s]; [reflexivity|]. simpl. intros Hc.
  rewrite Hc. reflexivity.
Qed.

Lemma rstrip_tight (s : string) : starts_tight s -> starts_tight (rstrip s).
Proof.
  destruct s as [|c s]; [intros _; exact I|]. intros Hc.
  change (is_space c = false) in Hc.
  rewrite rstrip_cons_tight by exact Hc. exact Hc.
Qed.

Lemma rstrip_idempotent (s : string) : rstrip (rstrip s) = rstrip s.
Proof.
  induction s as [|c s IH]; [reflexivity|].
  cbn [rstrip]. destruct (rstrip s) as [|d r'] eqn:Hr.
  - destruct (is_space c) eqn:Hc; [reflexivity|].
    cbn [rstrip]. rewrite Hc. reflexivity.
  - cbn [rstrip]. cbn [rstrip] in IH. rewrite IH. reflexivity.
Qed.

(** [strip] leaves nothing for a second [strip] to take. *)
Lemma strip_idempotent (s : string) : strip (strip s) = strip s.
Proof.
  unfold strip.
  rewrite (lstrip_of_tight (rstrip (lstrip s)))
    by (apply rstrip_tight, lstrip_tight).
  apply rstrip_idempotent.
Qed.

(** ** What [re.sub] writes *)

Lemma plus_more_suffix (a : Re.atom) (b : Re.branch) (t rest : string) :
  (forall s r, Re.match_branch b s = Some r -> exists pre, s = pre ++ r) ->
  plus_more a b t = Some rest -> exists pre, t = pre ++ rest.
Proof.
  intros Hb. induction t as [|d u IH]; intros H.
  - apply Hb. exact H.
  - cbn [plus_more] in H.
    destruct (Re.atom_matches a d); [|apply Hb; exact H].
    destruct (plus_more a b u) as [rest'|]; [|apply Hb; exact H].
    inversion H; subst rest'. destruct (IH eq_refl) as [pre ->].
    exists (String d pre). reflexivity.
Qed.

(** A match leaves a suffix of the string it was tried on. *)
Lemma match_branch_suffix (b : Re.branch) (s rest : string) :
  Re.match_branch b s = Some rest -> exists pre, s = pre ++ rest.
Proof.
  revert s rest. induction b as [|it b IH]; intros s rest H.
  - inversion H. exists "". reflexivity.
  - destruct it as [a|a]; destruct s as [|c r]; try discriminate.
    + cbn [Re.match_branch] in H.
      destruct (Re.atom_matches a c); [|discriminate].
      apply IH in H as [pre ->]. exists (String c pre). reflexivity.
    + rewrite match_branch_plus in H.
      destruct (Re.atom_matches a c); [|discriminate].
      apply (plus_more_suffix a b r rest IH) in H as [pre ->].
      exists (String c pre). reflexivity.
Qed.

Lemma match_pattern_suffix (p : Re.pattern) (s rest : string) :
  Re.match_pattern p s = Some rest -> exists pre, s = pre ++ rest.
Proof.
  induction p as [|b p IH]; intros H; [discriminate|].
  cbn [Re.match_pattern] in H.
  destruct (Re.match_branch b s) as [rest'|] eqn:Hb.
  - inversion H; subst rest'. apply match_branch_suffix in Hb. exact Hb.
  - apply IH. exact H.
Qed.

(** [re.sub] writes no character that is neither in the string nor in the
    replacement. *)
Lemma sub_free (c : ascii) (p : Re.pattern) (repl s : string) :
  free_of c repl = true -> free_of c s = true ->
  free_of c (Re.sub p repl s) = true.
Proof.
  intros Hrepl. induction s as [s IH] using string_length_ind. intros Hs.
  destruct s as [|d r]; [reflexivity|].
  pose proof Hs as Hdr. cbn [free_of] in Hdr. apply andb_prop in Hdr as [Hd Hr].
  assert (free_of c (String d (Re.sub p repl r)) = true) as Hkeep.
  { cbn [free_of]. rewrite Hd. apply IH; [simpl; lia | exact Hr]. }
  rewrite sub_unfold.
  destruct (Re.match_pattern p (String d r)) as [rest|] eqn:Hm; [|exact Hkeep].
  destruct (Nat.ltb_spec (String.length rest) (S (String.length r)));
    [|exact Hkeep].
  rewrite free_of_app, Hrepl. apply IH; [simpl; lia|].
  apply match_pattern_suffix in Hm as [pre Hpre].
  rewrite Hpre, free_of_app in Hs. apply andb_prop in Hs as [_ Hs]. exact Hs.
Qed.

(** After the first rewriting no backslash is left. *)
Lemma sub_escapes_no_backslash (s : string) :
  free_of backslash (Re.sub re_escapes " " s) = true.
Proof.
  induction s as [s IH] using string_length_ind.
  destruct s as [|c r]; [reflexivity|].
  rewrite sub_unfold, match_escapes.
  destruct (Ascii.eqb backslash c) eqn:Hc.
  - assert (forall rest,
              (String.length rest < S (String.length r))%nat ->
              free_of backslash
                (if (String.length rest <? S (String.length r))%nat
                 then " " ++ Re.sub re_escapes " " rest
                 else String c (Re.sub re_escapes " " r)) = true) as Hrest.
    { intros rest Hlt. rewrite (proj2 (Nat.ltb_lt _ _) Hlt).
      rewrite free_of_app. rewrite IH by (simpl; lia). reflexivity. }
    destruct r as [|d [|e r']].
    + apply Hrest. simpl. lia.
    + apply Hrest. simpl. lia.
    + destruct (negb (Ascii.eqb d newline) && Ascii.eqb "n" e);
        apply Hrest; simpl; lia.
  - cbn [free_of]. rewrite Hc. apply IH. simpl. lia.
Qed.

(** ** The records [valid_searches] builds *)

Lemma scan_keys_step (key : string) (item : list string)
    (d : gmap string string) :
  scan_keys (key :: item) d =
  match split ":" key with
  | name :: pieces =>
      if bool_decide (name ∈ recognized) then
        match pieces with
        | v :: _ => scan_keys item (<[name := strip v]> d)
        | [] => Raise IndexError
        end
      else scan_keys item d
  | [] => Raise IndexError
  end.
Proof.
  cbn [scan_keys]. destruct (split ":" key) as [|name [|v more]];
    cbn [getitem lookup list_lookup]; try reflexivity;
    rewrite bind_Ok; destruct (bool_decide (name ∈ recognized)); reflexivity.
Qed.

Lemma scan_keys_app (a b : list string) (d : gmap string string) :
  scan_keys (a ++ b) d = (scan_keys a d ≫= scan_keys b).
Proof.
  revert d. induction a as [|key a IH]; intros d; [reflexivity|].
  rewrite <- app_comm_cons, !scan_keys_step.
  destruct (split ":" key) as [|name [|v more]]; try reflexivity;
    destruct (bool_decide (name ∈ recognized)); try reflexivity; apply IH.
Qed.

(** Every entry of a record was there before or comes from a token: its
    key is a recognized name, the first piece of the token, and its value
    the second piece, stripped. *)
Lemma scan_keys_lookup (item : list string) (d d' : gmap string string)
    (k v : string) :
  scan_keys item d = Ok d' -> d' !! k = Some v ->
  d !! k = Some v \/
  (k ∈ recognized /\
   exists key piece more,
     key ∈ item /\ split ":" key = k :: piece :: more /\ v = strip piece).
Proof.
  revert d. induction item as [|key item IH]; intros d H Hk.
  - inversion H; subst. left. exact Hk.
  - rewrite scan_keys_step in H.
    assert (forall d0, scan_keys item d0 = Ok d' ->
              d0 !! k = Some v \/
              (k ∈ recognized /\
               exists key0 piece more,
                 key0 ∈ key :: item /\ split ":" key0 = k :: piece :: more /\
                 v = strip piece)) as Hrest.
    { intros d0 H0. destruct (IH d0 H0 Hk) as [Hl|[Hr [key0 [piece [more [Hin Hs]]]]]].
      - left. exact Hl.
      - right. split; [exact Hr|]. exists key0, piece, more.
        split; [right; exact Hin | exact Hs]. }
    destruct (split ":" key) as [|name [|piece more]] eqn:Hsplit;
      try discriminate.
    + destruct (bool_decide (name ∈ recognized)); [discriminate|].
      apply Hrest. exact H.
    + destruct (bool_decide (name ∈ recognized)) eqn:Hrec; [|apply Hrest; exact H].
      destruct (Hrest _ H) as [Hl|Hr]; [|right; exact Hr].
      destruct (decide (name = k)) as [->|Hne].
      * rewrite lookup_insert_eq in Hl. inversion Hl; subst v.
        right. split; [apply bool_decide_eq_true in Hrec; exact Hrec|].
        exists key, piece, more. split; [left|]. split; [exact Hsplit | reflexivity].
      * rewrite lookup_insert_ne in Hl by exact Hne. left. exact Hl.
Qed.

(** Tokens whose key is not [k] leave the value of [k] as it is. *)
Lemma scan_keys_other (item : list string) (d d' : gmap string string)
    (k : string) :
  Forall (fun key => split ":" key !! 0%nat <> Some k) item ->
  scan_keys item d = Ok d' -> d' !! k = d !! k.
Proof.
  revert d. induction item as [|key item IH]; intros d Hall H.
  - inversion H. reflexivity.
  - inversion Hall as [|? ? Hkey Hitem]; subst.
    rewrite scan_keys_step in H.
    destruct (split ":" key) as [|name [|piece more]]; try discriminate.
    + destruct (bool_decide (name ∈ recognized)); [discriminate|].
      apply IH; assumption.
    + destruct (bool_decide (name ∈ recognized)); [|apply IH; assumption].
      rewrite (IH _ Hitem H). apply lookup_insert_ne.
      intros ->. apply Hkey. reflexivity.
Qed.

Lemma apply_elem_of {A B : Type} (f : A -> result B) (l : list A)
    (ys : list B) (y : B) :
  apply f l = Ok ys -> y ∈ ys -> exists x, x ∈ l /\ f x = Ok y.
Proof.
  revert ys. induction l as [|x l IH]; intros ys H Hy.
  - inversion H; subst. inversion Hy.
  - cbn [apply] in H. destruct (f x) as [y0|e] eqn:Hx; [|discriminate].
    rewrite bind_Ok in H.
    destruct (apply f l) as [ys0|e] eqn:Hl; [|discriminate].
    rewrite bind_Ok in H. inversion H; subst ys.
    apply elem_of_cons in Hy as [->|Hy].
    + exists x. split; [left | exact Hx].
    + destruct (IH ys0 eq_refl Hy) as [x' [Hin Hx']].
      exists x'. split; [right; exact Hin | exact Hx'].
Qed.

(** Every record [valid_searches] returns was built from the tokens of one
    chunk of the blob. *)
Lemma valid_searches_record_origin (raw : string)
    (vs : list (gmap string string)) (d : gmap string string) :
  valid_searches raw = Ok vs -> d ∈ vs ->
  exists chunk,
    chunk ∈ chunks raw /\
    scan_keys
      (split "," (Re.sub re_space_colon "," (Re.sub re_escapes " " chunk))) ∅
    = Ok d.
Proof.
  intros H Hd. rewrite valid_searches_loop in H.
  destruct (valid_loop_filter _ _ _ H) as [recs [Hrecs Hvs]].
  simpl in Hvs. subst vs.
  apply list_elem_of_In, filter_In in Hd as [Hd _]. apply list_elem_of_In in Hd.
  destruct (apply_elem_of _ _ _ _ Hrecs Hd) as [item [Hitem Hscan]].
  rewrite token_lists_chunks in Hitem.
  apply list_elem_of_In, in_map_iff in Hitem as [chunk [<- Hchunk]].
  exists chunk. split; [apply list_elem_of_In; exact Hchunk | exact Hscan].
Qed.

(** The tokens of a chunk have no backslash and no comma. *)
Lemma chunk_tokens_free (chunk key : string) :
  key ∈ split "," (Re.sub re_space_colon "," (Re.sub re_escapes " " chunk)) ->
  free_of backslash key = true /\ free_of "," key = true.
Proof.
  intros Hkey. split.
  - assert (free_of backslash
              (Re.sub re_space_colon "," (Re.sub re_escapes " " chunk)) = true)
      as Hfree by (apply sub_free; [reflexivity | apply sub_escapes_no_backslash]).
    pose proof (free_of_split backslash "," _ comma_nonempty Hfree) as Hall.
    rewrite Forall_forall in Hall. apply Hall. exact Hkey.
  - pose proof (split_char_pieces_free ","
                  (Re.sub re_space_colon "," (Re.sub re_escapes " " chunk)))
      as Hall.
    rewrite Forall_forall in Hall. apply Hall. exact Hkey.
Qed.

(** X1. The keys of every record [valid_searches] returns are among the six
    recognized names: nothing else of the blob becomes a key. *)
Theorem X1_record_keys_recognized (raw : string)
    (vs : list (gmap string string)) :
  valid_searches raw = Ok vs ->
  Forall (fun d : gmap string string =>
            forall k, is_Some (d !! k) -> k ∈ recognized) vs.
Proof.
  intros H. apply Forall_forall. intros d Hd k [v Hv].
  destruct (valid_searches_record_origin raw vs d H Hd) as [chunk [_ Hscan]].
  destruct (scan_keys_lookup _ _ _ k v Hscan Hv) as [Hempty|[Hrec _]].
  - rewrite lookup_empty in Hempty. discriminate.
  - exact Hrec.
Qed.

Lemma X1_witness_unknown_key :
  let raw := "enabled:true,colour:red,clicks:4" in
  let kept : gmap string string := {[ "enabled" := "true"; "clicks" := "4" ]} in
  valid_searches raw = Ok [kept] /\
  Forall (fun d : gmap string string =>
            forall k, is_Some (d !! k) -> k ∈ recognized) [kept].
Proof.
  assert (valid_searches "enabled:true,colour:red,clicks:4"
          = Ok [ ({[ "enabled" := "true"; "clicks" := "4" ]} : gmap string string) ])
    as H by (vm_compute; reflexivity).
  exact (conj H (X1_record_keys_recognized _ _ H)).
Defined.

Lemma record_value_clean (raw : string) (vs : list (gmap string string))
    (d : gmap string string) (k v : string) :
  valid_searches raw = Ok vs -> d ∈ vs -> d !! k = Some v -> clean_value v.
Proof.
  intros H Hd Hv.
  destruct (valid_searches_record_origin raw vs d H Hd) as [chunk [_ Hscan]].
  destruct (scan_keys_lookup _ _ _ k v Hscan Hv)
    as [Hempty|[_ [key [piece [more [Hkey [Hsplit ->]]]]]]].
  { rewrite lookup_empty in Hempty. discriminate. }
  destruct (chunk_tokens_free chunk key Hkey) as [Hbs Hcomma].
  assert (piece ∈ split ":" key) as Hpiece
    by (rewrite Hsplit; right; left).
  assert (forall c, free_of c key = true -> free_of c piece = true) as Hsub.
  { intros c Hc.
    pose proof (free_of_split c ":" key (char_sep_nonempty ":") Hc) as Hall.
    rewrite Forall_forall in Hall. apply Hall. exact Hpiece. }
  assert (free_of ":" piece = true) as Hcolon.
  { pose proof (split_char_pieces_free ":" key) as Hall.
    rewrite Forall_forall in Hall. apply Hall. exact Hpiece. }
  unfold clean_value.
  split; [apply free_of_strip, Hsub, Hbs|].
  split; [apply free_of_strip, Hsub, Hcomma|].
  split; [apply free_of_strip, Hcolon | apply strip_idempotent].
Qed.

(** X2. The values of every record [valid_searches] returns have no
    backslash, no comma and no colon in them, and no whitespace at either
    end. *)
Theorem X2_record_values_clean (raw : string)
    (vs : list (gmap string string)) :
  valid_searches raw = Ok vs ->
  Forall (fun d : gmap string string =>
            forall k v, d !! k = Some v -> clean_value v) vs.
Proof.
  intros H. apply Forall_forall. intros d Hd k v Hv.
  exact (record_value_clean raw vs d k v H Hd Hv).
Qed.

Lemma X2_witness_padded_value :
  let raw := "\\n  :enabled:  true \\n  :clicks: 7:x" in
  let kept : gmap string string := {[ "enabled" := "true"; "clicks" := "7" ]} in
  valid_searches raw = Ok [kept] /\
  Forall (fun d : gmap string string =>
            forall k v, d !! k = Some v -> clean_value v) [kept].
Proof.
  assert (valid_searches "\\n  :enabled:  true \\n  :clicks: 7:x"
          = Ok [ ({[ "enabled" := "true"; "clicks" := "7" ]} : gmap string string) ])
    as H by (vm_compute; reflexivity).
  exact (conj H (X2_record_values_clean _ _ H)).
Defined.

(** X3. When a recognized name is the key of several tokens of a chunk,
    the record keeps the value of the last of them. *)
Theorem X3_last_token_wins (a b : list string) (k v tail : string)
    (d d' : gmap string string) :
  k ∈ recognized ->
  free_of ":" k = true -> free_of ":" v = true ->
  tail = "" \/ startswith ":" tail = true ->
  Forall (fun key => split ":" key !! 0%nat <> Some k) b ->
  scan_keys (a ++ (k ++ ":" ++ v ++ tail) :: b) d = Ok d' ->
  d' !! k = Some (strip v).
Proof.
  intros Hrec Hk Hv Htail Hb H.
  rewrite scan_keys_app in H.
  destruct (scan_keys a d) as [d0|e]; [|discriminate].
  rewrite bind_Ok, scan_keys_step in H.
  destruct (split_colon_pieces k v tail Hk Hv Htail) as [more Hsplit].
  rewrite Hsplit, bool_decide_eq_true_2 in H by exact Hrec.
  rewrite (scan_keys_other b _ d' k Hb H). apply lookup_insert_eq.
Qed.

Lemma X3_witness_type_twice :
  ("type" ∈ recognized /\ free_of ":" "type" = true /\
   free_of ":" " Rental" = true /\
   Forall (fun key => split ":" key !! 0%nat <> Some "type") ["clicks:3"] /\
   scan_keys (["type:Sale"] ++ ("type" ++ ":" ++ " Rental" ++ "") :: ["clicks:3"]) ∅
   = Ok {[ "type" := "Rental"; "clicks" := "3" ]}) /\
  ({[ "type" := "Rental"; "clicks" := "3" ]} : gmap string string) !! "type"
  = Some (strip " Rental").
Proof.
  assert ("type" ∈ recognized) as Hrec by (do 3 right; left).
  assert (Forall (fun key => split ":" key !! 0%nat <> Some "type") ["clicks:3"])
    as Hb by (constructor; [vm_compute; discriminate | constructor]).
  assert (scan_keys
            (["type:Sale"] ++ ("type" ++ ":" ++ " Rental" ++ "") :: ["clicks:3"]) ∅
          = Ok ({[ "type" := "Rental"; "clicks" := "3" ]} : gmap string string))
    as H by (vm_compute; reflexivity).
  exact (conj (conj Hrec (conj eq_refl (conj eq_refl (conj Hb H))))
              (X3_last_token_wins ["type:Sale"] ["clicks:3"] "type" " Rental" ""
                 ∅ _ Hrec eq_refl eq_refl (or_introl eq_refl) Hb H)).
Defined.

(** ** Blobs joined by the delimiter *)

(** The delimiter does not overlap itself, so none starts in the last two
    characters of what stands before one. *)
Lemma strip_prefix_delimiter_boundary (a b : string) :
  a <> "" -> strip_prefix "\n-" a = None ->
  strip_prefix "\n-" (a ++ "\n-" ++ b) = None.
Proof.
  intros Hne H. destruct a as [|c [|d [|e a']]]; [contradiction| | |].
  - string_app. cbn [strip_prefix]. destruct (Ascii.eqb "\" c); reflexivity.
  - string_app. cbn [strip_prefix].
    destruct (Ascii.eqb "\" c); [|reflexivity].
    destruct (Ascii.eqb "n" d); reflexivity.
  - string_app. cbn [strip_prefix] in *.
    destruct (Ascii.eqb "\" c); [|reflexivity].
    destruct (Ascii.eqb "n" d); [|reflexivity].
    destruct (Ascii.eqb "-" e); [discriminate | reflexivity].
Qed.

Lemma split_app_delimiter (a b : string) :
  split "\n-" (a ++ "\n-" ++ b) = (split "\n-" a ++ split "\n-" b)%list.
Proof.
  induction a as [a IH] using string_length_ind.
  rewrite (split_unfold "\n-" separator_nonempty a).
  destruct (strip_prefix "\n-" a) as [a'|] eqn:Hp.
  - pose proof (strip_prefix_shorter _ _ _ separator_nonempty Hp) as Hlt.
    apply strip_prefix_Some in Hp. subst a.
    rewrite string_app_assoc.
    rewrite (split_unfold "\n-" separator_nonempty ("\n-" ++ a' ++ "\n-" ++ b)).
    assert (strip_prefix "\n-" ("\n-" ++ a' ++ "\n-" ++ b)
            = Some (a' ++ "\n-" ++ b)) as ->
      by (apply strip_prefix_Some; reflexivity).
    rewrite (IH a' Hlt). reflexivity.
  - destruct a as [|c r].
    + rewrite app_Empty.
      rewrite (split_unfold "\n-" separator_nonempty ("\n-" ++ b)).
      assert (strip_prefix "\n-" ("\n-" ++ b) = Some b) as ->
        by (apply strip_prefix_Some; reflexivity).
      reflexivity.
    + rewrite (split_unfold "\n-" separator_nonempty (String c r ++ "\n-" ++ b)).
      rewrite (strip_prefix_delimiter_boundary (String c r) b) by (discriminate || exact Hp).
      rewrite app_String. rewrite (IH r) by (simpl; lia).
      pose proof (split_not_nil "\n-" separator_nonempty r) as Hne.
      destruct (split "\n-" r) as [|h t]; [contradiction | reflexivity].
Qed.

Lemma chunks_app_delimiter (a b : string) :
  chunks (a ++ "\n-" ++ b) = (chunks a ++ chunks b)%list.
Proof. unfold chunks. rewrite split_app_delimiter. apply filter_app. Qed.

Lemma token_lists_app (l1 l2 : list string) :
  token_lists (l1 ++ l2) = (token_lists l1 ++ token_lists l2)%list.
Proof. unfold token_lists. rewrite filter_app, !map_app. reflexivity. Qed.

Lemma valid_loop_acc (l : list (list string)) (acc : list (gmap string string)) :
  valid_loop l acc = (vs ← valid_loop l []; Ok (acc ++ vs)%list).
Proof.
  revert acc. induction l as [|item l IH]; intros acc.
  - simpl. rewrite app_nil_r. reflexivity.
  - cbn [valid_loop].
    destruct (scan_keys item ∅) as [d|e]; [|reflexivity]. rewrite !bind_Ok.
    destruct (is_valid d) as [keep|e]; [|reflexivity]. rewrite !bind_Ok.
    rewrite (IH (if keep then acc ++ [d] else acc)%list).
    rewrite (IH (if keep then [] ++ [d] else [])%list).
    destruct (valid_loop l []) as [vs|e]; [|reflexivity]. rewrite !bind_Ok.
    destruct keep; [rewrite <- app_assoc|]; reflexivity.
Qed.

Lemma valid_loop_app (l1 l2 : list (list string)) :
  valid_loop (l1 ++ l2) [] =
  (v1 ← valid_loop l1 []; v2 ← valid_loop l2 []; Ok (v1 ++ v2)%list).
Proof.
  induction l1 as [|item l1 IH].
  - simpl. destruct (valid_loop l2 []); reflexivity.
  - rewrite <- app_comm_cons. cbn [valid_loop].
    destruct (scan_keys item ∅) as [d|e]; [|reflexivity]. rewrite !bind_Ok.
    destruct (is_valid d) as [keep|e]; [|reflexivity]. rewrite !bind_Ok.
    rewrite (valid_loop_acc (l1 ++ l2)), (valid_loop_acc l1), IH.
    destruct (valid_loop l1 []) as [v1|e]; [|reflexivity]. rewrite !bind_Ok.
    destruct (valid_loop l2 []) as [v2|e]; [|reflexivity]. rewrite !bind_Ok.
    rewrite app_assoc. reflexivity.
Qed.

(** X4. The valid searches of two blobs joined by the delimiter are those
    of the first followed by those of the second; when either raises, so
    does the whole, with the error of the first that does. *)
Theorem X4_valid_searches_of_joined_blobs (a b : string) :
  valid_searches (a ++ "\n-" ++ b) =
  (v1 ← valid_searches a; v2 ← valid_searches b; Ok (v1 ++ v2)%list).
Proof.
  rewrite !valid_searches_loop, chunks_app_delimiter, token_lists_app.
  apply valid_loop_app.
Qed.

Lemma split_without_separator (sep s : string) :
  sep <> "" -> contains sep s = false -> split sep s = [s].
Proof.
  intros Hsep. induction s as [|c r IH]; intros H.
  - rewrite split_unfold by exact Hsep.
    destruct sep; [contradiction | reflexivity].
  - cbn [contains] in H. apply orb_false_elim in H as [Hsw Hr].
    rewrite split_unfold by exact Hsep. unfold startswith in Hsw.
    destruct (strip_prefix sep (String c r)); [discriminate|].
    rewrite (IH Hr). reflexivity.
Qed.

Lemma chunks_header (h : string) :
  startswith "---" h = true -> contains "\n-" h = false -> chunks h = [].
Proof.
  intros Hh Hsep. unfold chunks.
  rewrite (split_without_separator _ _ separator_nonempty Hsep).
  rewrite filter_cons, Hh. reflexivity.
Qed.

(** X5. A chunk that starts with [---] counts for nothing wherever it
    stands: with it in front of a blob or behind it, [valid_searches]
    gives what it gives on the blob alone. *)
Theorem X5_header_chunk_ignored (h b : string) :
  startswith "---" h = true -> contains "\n-" h = false ->
  valid_searches (h ++ "\n-" ++ b) = valid_searches b /\
  valid_searches (b ++ "\n-" ++ h) = valid_searches b.
Proof.
  intros Hh Hsep. pose proof (chunks_header h Hh Hsep) as Hc.
  rewrite !valid_searches_loop, !chunks_app_delimiter, Hc.
  rewrite app_nil_r. split; reflexivity.
Qed.

Lemma X5_witness_header :
  (startswith "---" "---\" = true /\ contains "\n-" "---\" = false) /\
  valid_searches ("---\" ++ "\n-" ++ " :enabled: true\\n  :clicks: 3")
  = valid_searches " :enabled: true\\n  :clicks: 3" /\
  valid_searches (" :enabled: true\\n  :clicks: 3" ++ "\n-" ++ "---\")
  = valid_searches " :enabled: true\\n  :clicks: 3".
Proof.
  exact (conj (conj eq_refl eq_refl)
              (X5_header_chunk_ignored "---\" " :enabled: true\\n  :clicks: 3"
                 eq_refl eq_refl)).
Defined.

(** ** Errors of the validity condition and of the average *)

Lemma int_of_str_raises (s : string) (e : exn) :
  int_of_str s = Raise e -> e = ValueError.
Proof.
  unfold int_of_str.
  match goal with
  | |- match ?signed with Some _ => _ | None => _ end = _ -> _ =>
      destruct signed
  end; [discriminate|].
  intros H. inversion H. reflexivity.
Qed.

Lemma clicks_of_raises (d : gmap string string) (e : exn) :
  clicks_of d = Raise e -> e = ValueError.
Proof.
  unfold clicks_of. destruct (d !! "clicks"); [apply int_of_str_raises|].
  discriminate.
Qed.

(** X6. [valid_searches] raises nothing when every decoded record has
    [enabled] and every record whose [enabled] is ["true"] has an integer
    for [clicks], or none: on a record that is not enabled [clicks] is
    never converted, whatever it holds. *)
Theorem X6_valid_searches_returns (raw : string)
    (recs : list (gmap string string)) :
  apply (fun item => scan_keys item ∅) (token_lists (chunks raw)) = Ok recs ->
  Forall (fun d : gmap string string =>
            is_Some (d !! "enabled") /\
            (d !! "enabled" = Some "true" -> exists n, clicks_of d = Ok n))
         recs ->
  valid_searches raw = Ok (List.filter valid_recordb recs).
Proof.
  intros Hrecs Hall. rewrite valid_searches_loop.
  apply (valid_loop_total _ [] recs Hrecs Hall).
Qed.

Lemma X6_witness_clicks_not_converted :
  let raw := "enabled:false,clicks:many\n-enabled:true,clicks:3" in
  let first : gmap string string := {[ "enabled" := "false"; "clicks" := "many" ]} in
  let second : gmap string string := {[ "enabled" := "true"; "clicks" := "3" ]} in
  (apply (fun item => scan_keys item ∅) (token_lists (chunks raw))
   = Ok [first; second] /\
   clicks_of first = Raise ValueError) /\
  valid_searches raw = Ok [second].
Proof.
  intros raw first second.
  assert (apply (fun item => scan_keys item ∅) (token_lists (chunks raw))
          = Ok [first; second]) as Hrecs by (vm_compute; reflexivity).
  assert (Forall (fun d : gmap string string =>
                    is_Some (d !! "enabled") /\
                    (d !! "enabled" = Some "true" -> exists n, clicks_of d = Ok n))
                 [first; second]) as Hall.
  { constructor; [|constructor; [|constructor]].
    - split; [exists "false"; vm_compute; reflexivity|].
      intros H. vm_compute in H. discriminate H.
    - split; [exists "true"; vm_compute; reflexivity|].
      intros _. exists 3. vm_compute. reflexivity. }
  split; [split; [exact Hrecs | vm_compute; reflexivity]|].
  exact (X6_valid_searches_returns raw [first; second] Hrecs Hall).
Defined.

(** X7. A decoded record whose [enabled] is ["true"] and whose [clicks] is
    not an integer is a [ValueError], and the error ends [valid_searches]
    for the whole blob. *)
Theorem X7_non_integer_clicks_raises (raw : string) (item : list string)
    (d : gmap string string) :
  item ∈ token_lists (chunks raw) ->
  scan_keys item ∅ = Ok d ->
  d !! "enabled" = Some "true" ->
  (forall n, clicks_of d <> Ok n) ->
  is_valid d = Raise ValueError /\ exists e, valid_searches raw = Raise e.
Proof.
  intros Hin Hd Hen Hclicks.
  assert (is_valid d = Raise ValueError) as Hv.
  { destruct (clicks_of d) as [n|e] eqn:Hc; [destruct (Hclicks n); reflexivity|].
    apply clicks_of_raises in Hc as He. subst e.
    unfold is_valid. rewrite Hen, Hc. reflexivity. }
  split; [exact Hv|].
  rewrite valid_searches_loop. apply (valid_loop_raises_at _ item); [exact Hin|].
  intros d' Hd'. exists ValueError. congruence.
Qed.

Lemma X7_witness_clicks_word :
  let d : gmap string string := {[ "enabled" := "true"; "clicks" := "many" ]} in
  (["enabled:true"; "clicks:many"] ∈ token_lists (chunks "enabled:true,clicks:many") /\
   scan_keys ["enabled:true"; "clicks:many"] ∅ = Ok d /\
   d !! "enabled" = Some "true" /\
   (forall n, clicks_of d <> Ok n)) /\
  is_valid d = Raise ValueError /\
  exists e, valid_searches "enabled:true,clicks:many" = Raise e.
Proof.
  intros d.
  assert (["enabled:true"; "clicks:many"]
            ∈ token_lists (chunks "enabled:true,clicks:many")) as Hin
    by (vm_compute; left).
  assert (scan_keys ["enabled:true"; "clicks:many"] ∅ = Ok d) as Hd
    by (vm_compute; reflexivity).
  assert (d !! "enabled" = Some "true") as Hen by (vm_compute; reflexivity).
  assert (forall n, clicks_of d <> Ok n) as Hclicks
    by (intros n H; vm_compute in H; discriminate H).
  exact (conj (conj Hin (conj Hd (conj Hen Hclicks)))
              (X7_non_integer_clicks_raises _ _ _ Hin Hd Hen Hclicks)).
Defined.

Lemma apply_Raise {A B : Type} (f : A -> result B) (l : list A) (e : exn) :
  apply f l = Raise e -> exists x, x ∈ l /\ f x = Raise e.
Proof.
  induction l as [|x l IH]; intros H; [discriminate|].
  cbn [apply] in H. destruct (f x) as [y|e0] eqn:Hx.
  - rewrite bind_Ok in H. destruct (apply f l) as [ys|e1]; [discriminate|].
    inversion H; subst e1. destruct (IH eq_refl) as [x' [Hin Hx']].
    exists x'. split; [right; exact Hin | exact Hx'].
  - inversion H; subst e0. exists x. split; [left | exact Hx].
Qed.

Lemma apply_Ok_inv {A B : Type} (f : A -> result B) (l : list A) (ys : list B)
    (x : A) :
  apply f l = Ok ys -> x ∈ l -> exists y, f x = Ok y.
Proof.
  revert ys. induction l as [|x0 l IH]; intros ys H Hx; [inversion Hx|].
  cbn [apply] in H. destruct (f x0) as [y0|e] eqn:Hx0; [|discriminate].
  rewrite bind_Ok in H. destruct (apply f l) as [ys0|e]; [|discriminate].
  apply elem_of_cons in Hx as [->|Hx]; [exists y0; exact Hx0|].
  apply (IH ys0 eq_refl Hx).
Qed.

Lemma avg_listings_sent_ValueError (vs : list (gmap string string)) :
  avg_listings_sent vs = Raise ValueError <->
  apply int_of_str (omap (nonempty_field "listings_sent") vs) = Raise ValueError.
Proof.
  unfold avg_listings_sent.
  destruct (apply int_of_str (omap (nonempty_field "listings_sent") vs))
    as [values|e0] eqn:Hv.
  - rewrite (avg_loop_sums vs values 0 0 Hv), bind_Ok. cbn [fst snd].
    split; [|discriminate].
    destruct (0 <? 0 + Z.of_nat (length values)); [|discriminate].
    unfold rounded_mean, sum_true_divide, int_true_divide.
    destruct (fits_64_bits (0 + foldr Z.add 0 values)); [discriminate|].
    match goal with
    | |- context [is_infinity ?q] => destruct (is_infinity q)
    end; discriminate.
  - rewrite (avg_loop_raises vs e0 0 0 Hv), bind_Raise.
    split; intros H; inversion H; reflexivity.
Qed.

Lemma rounded_mean_raises (listings num_listings : Z) (e : exn) :
  rounded_mean listings num_listings = Raise e ->
  e = OverflowError /\ fits_64_bits listings = false.
Proof.
  unfold rounded_mean, sum_true_divide, int_true_divide.
  destruct (fits_64_bits listings); [discriminate|].
  match goal with
  | |- context [is_infinity ?q] => destruct (is_infinity q)
  end; [|discriminate].
  intros H. inversion H. split; reflexivity.
Qed.

(** X8. [avg_listings_sent] raises [ValueError] exactly when some valid
    search has a non-empty [listings_sent] that is not an integer. The only
    other exception it raises is the [OverflowError] of the division, and
    then every value is an integer and their sum is beyond the signed and
    unsigned 64-bit integers. *)
Theorem X8_avg_listings_sent_errors (vs : list (gmap string string)) :
  (avg_listings_sent vs = Raise ValueError <->
   exists v, v ∈ omap (nonempty_field "listings_sent") vs /\
             forall n, int_of_str v <> Ok n) /\
  (forall e, avg_listings_sent vs = Raise e ->
     e = ValueError \/
     (e = OverflowError /\
      exists values,
        apply int_of_str (omap (nonempty_field "listings_sent") vs) = Ok values /\
        (foldr Z.add 0 values < - 2 ^ 63 \/ 2 ^ 64 <= foldr Z.add 0 values))).
Proof.
  split; [split|].
  - intros H. apply avg_listings_sent_ValueError, apply_Raise in H as [v [Hin Hv]].
    exists v. split; [exact Hin|]. intros n Hn. congruence.
  - intros [v [Hin Hv]]. apply avg_listings_sent_ValueError.
    destruct (apply int_of_str (omap (nonempty_field "listings_sent") vs))
      as [values|e] eqn:Happ.
    + destruct (apply_Ok_inv _ _ _ v Happ Hin) as [n Hn].
      destruct (Hv n Hn).
    + apply apply_Raise in Happ as [x [_ Hx]].
      apply int_of_str_raises in Hx. subst e. reflexivity.
  - intros e H. unfold avg_listings_sent in H.
    destruct (apply int_of_str (omap (nonempty_field "listings_sent") vs))
      as [values|e0] eqn:Hv.
    + rewrite (avg_loop_sums vs values 0 0 Hv), bind_Ok in H. cbn [fst snd] in H.
      rewrite !Z.add_0_l in H.
      destruct (0 <? Z.of_nat (length values)); [|discriminate].
      apply rounded_mean_raises in H as [-> Hfits].
      right. split; [reflexivity|]. exists values. split; [reflexivity|].
      apply fits_64_bits_false. exact Hfits.
    + rewrite (avg_loop_raises vs e0 0 0 Hv), bind_Raise in H.
      inversion H; subst e0. left.
      apply apply_Raise in Hv as [x [_ Hx]].
      apply int_of_str_raises in Hx. exact Hx.
Qed.

Example avg_listings_sent_not_a_number :
  avg_listings_sent [ {[ "listings_sent" := "12" ]}; {[ "listings_sent" := "1.5" ]} ]
  = Raise ValueError.
Proof. vm_compute. reflexivity. Qed.

(** ** The order of the valid searches *)

Lemma apply_Permutation {A B : Type} (f : A -> result B) (l l' : list A) :
  l ≡ₚ l' ->
  forall ys, apply f l = Ok ys -> exists ys', apply f l' = Ok ys' /\ ys ≡ₚ ys'.
Proof.
  induction 1 as [|x l l' Hperm IH|x y l|l l' l'' H1 IH1 H2 IH2]; intros ys H.
  - exists ys. split; [exact H | reflexivity].
  - cbn [apply] in *. destruct (f x) as [y|e]; [|discriminate].
    rewrite bind_Ok in *. destruct (apply f l) as [ys0|e]; [|discriminate].
    rewrite bind_Ok in H. inversion H; subst ys.
    destruct (IH ys0 eq_refl) as [ys0' [-> Hp]]. rewrite bind_Ok.
    exists (y :: ys0'). split; [reflexivity | constructor; exact Hp].
  - cbn [apply] in *. destruct (f y) as [b|e]; [|discriminate].
    rewrite bind_Ok in H. destruct (f x) as [a|e]; [|discriminate].
    rewrite bind_Ok in *. destruct (apply f l) as [ys0|e]; [|discriminate].
    rewrite !bind_Ok in *. inversion H; subst ys.
    exists (a :: b :: ys0). split; [reflexivity | constructor].
  - destruct (IH1 ys H) as [ys1 [Hy1 Hp1]].
    destruct (IH2 ys1 Hy1) as [ys2 [Hy2 Hp2]].
    exists ys2. split; [exact Hy2 | etransitivity; eassumption].
Qed.

Lemma foldr_add_Permutation (l l' : list Z) :
  l ≡ₚ l' -> foldr Z.add 0 l = foldr Z.add 0 l'.
Proof.
  induction 1 as [|x l l' _ IH|x y l|l l' l'' _ IH1 _ IH2]; simpl; lia.
Qed.

(** X9. [avg_listings_sent] does not depend on the order of the valid
    searches: what it returns, or raises, is the same for any
    rearrangement of them. *)
Theorem X9_avg_listings_sent_any_order (vs vs' : list (gmap string string)) :
  vs ≡ₚ vs' -> avg_listings_sent vs = avg_listings_sent vs'.
Proof.
  intros Hperm.
  assert (omap (nonempty_field "listings_sent") vs
          ≡ₚ omap (nonempty_field "listings_sent") vs') as Hvalues
    by (rewrite Hperm; reflexivity).
  destruct (apply int_of_str (omap (nonempty_field "listings_sent") vs))
    as [values|e] eqn:Hv.
  - destruct (apply_Permutation _ _ _ Hvalues values Hv) as [values' [Hv' Hp]].
    unfold avg_listings_sent.
    rewrite (avg_loop_sums vs values 0 0 Hv), (avg_loop_sums vs' values' 0 0 Hv').
    rewrite (foldr_add_Permutation _ _ Hp), Hp. reflexivity.
  - pose proof Hv as Hraise. apply apply_Raise in Hraise as [v [Hin Hfail]].
    pose proof (int_of_str_raises _ _ Hfail) as ->.
    rewrite (proj2 (avg_listings_sent_ValueError vs) Hv).
    symmetry. apply avg_listings_sent_ValueError.
    destruct (apply int_of_str (omap (nonempty_field "listings_sent") vs'))
      as [values'|e'] eqn:Hv'.
    + rewrite Hvalues in Hin.
      destruct (apply_Ok_inv _ _ _ v Hv' Hin) as [n Hn]. congruence.
    + apply apply_Raise in Hv' as [v' [_ Hfail']].
      apply int_of_str_raises in Hfail'. subst e'. reflexivity.
Qed.

Lemma X9_witness_swapped :
  let a : gmap string string := {[ "listings_sent" := "1" ]} in
  let b : gmap string string := {[ "listings_sent" := "2" ]} in
  [a; b] ≡ₚ [b; a] /\ avg_listings_sent [a; b] = avg_listings_sent [b; a].
Proof.
  intros a b.
  exact (conj (perm_swap b a []) (X9_avg_listings_sent_any_order _ _ (perm_swap b a []))).
Defined.

(** X10. [type_of_search] does not depend on the order of the valid
    searches either. *)
Theorem X10_type_of_search_any_order (vs vs' : list (gmap string string)) :
  vs ≡ₚ vs' -> type_of_search vs = type_of_search vs'.
Proof.
  intros Hperm. unfold type_of_search.
  rewrite !type_loop_counts.
  assert (forall P `{forall x : gmap string string, Decision (P x)},
            length (filter P vs) = length (filter P vs')) as Hlen
    by (intros P HP; rewrite Hperm; reflexivity).
  rewrite !Hlen. reflexivity.
Qed.

Lemma X10_witness_swapped :
  let a : gmap string string := {[ "type" := "Rental" ]} in
  let b : gmap string string := {[ "type" := "Sale" ]} in
  [a; b] ≡ₚ [b; a] /\ type_of_search [a; b] = type_of_search [b; a].
Proof.
  intros a b.
  exact (conj (perm_swap b a []) (X10_type_of_search_any_order _ _ (perm_swap b a []))).
Defined.

(** ** More on the two tables of [execute] *)

Lemma apply_raises_member {A B : Type} (f : A -> result B) (l : list A)
    (x : A) (e : exn) :
  x ∈ l -> f x = Raise e -> exists e', apply f l = Raise e'.
Proof.
  induction l as [|x0 l IH]; intros Hin Hx; [inversion Hin|].
  cbn [apply]. destruct (f x0) as [y0|e0] eqn:Hx0; [|exists e0; reflexivity].
  rewrite bind_Ok. apply elem_of_cons in Hin as [->|Hin]; [congruence|].
  destruct (IH Hin Hx) as [e' ->]. exists e'. reflexivity.
Qed.

(** X11. One row whose blob [valid_searches] cannot decode ends [execute]
    with an exception: neither table is produced, for any user. *)
Theorem X11_malformed_row_aborts (data : list (string * string))
    (u blob : string) (e : exn) :
  (u, blob) ∈ data -> valid_searches blob = Raise e ->
  exists e', execute data = Raise e'.
Proof.
  intros Hin Hblob. rewrite execute_unfold.
  assert (blob ∈ data.*2) as Hin2
    by (apply list_elem_of_fmap; exists (u, blob); split; [reflexivity | exact Hin]).
  destruct (apply_raises_member _ _ _ _ Hin2 Hblob) as [e' ->].
  exists e'. reflexivity.
Qed.

Lemma X11_witness_empty_cell :
  (("u2", "") ∈ [("u1", "enabled:true,clicks:3"); ("u2", "")] /\
   valid_searches "" = Raise KeyError) /\
  exists e', execute [("u1", "enabled:true,clicks:3"); ("u2", "")] = Raise e'.
Proof.
  assert (("u2", "") ∈ [("u1", "enabled:true,clicks:3"); ("u2", "")]) as Hin
    by (right; left).
  assert (valid_searches "" = Raise KeyError) as Hblob by (vm_compute; reflexivity).
  exact (conj (conj Hin Hblob) (X11_malformed_row_aborts _ _ _ _ Hin Hblob)).
Defined.

Lemma retained_app (d1 d2 : list (string * string))
    (v1 v2 : list (list (gmap string string))) :
  length v1 = length d1 ->
  retained (d1 ++ d2) (v1 ++ v2) = (retained d1 v1 ++ retained d2 v2)%list.
Proof.
  intros Hlen. unfold retained.
  rewrite fmap_app, zip_with_app by (rewrite length_fmap; symmetry; exact Hlen).
  apply filter_app.
Qed.

Lemma unique_ids_app (rows1 rows2 : list summary_row) (x : string) :
  x ∈ unique_ids (rows1 ++ rows2) <->
  x ∈ unique_ids rows1 \/ x ∈ unique_ids rows2.
Proof.
  rewrite !elem_of_unique_ids. split.
  - intros [row [id [Hrow H]]]. apply elem_of_app in Hrow as [Hrow|Hrow];
      [left | right]; exists row, id; split; assumption.
  - intros [[row [id [Hrow H]]]|[row [id [Hrow H]]]]; exists row, id;
      (split; [apply elem_of_app|exact H]); [left | right]; exact Hrow.
Qed.

Lemma existsb_is_float_infer (col : list number) :
  existsb is_float (infer_column col) = existsb is_float col.
Proof.
  unfold infer_column. destruct (existsb is_float col) eqn:H; [|exact H].
  destruct col as [|x col]; [discriminate|]. destruct x; reflexivity.
Qed.

Lemma as_float_idempotent (x : number) : as_float (as_float x) = as_float x.
Proof. destruct x; reflexivity. Qed.

Lemma map_as_float_infer (col : list number) :
  map as_float (infer_column col) = map as_float col.
Proof.
  unfold infer_column. destruct (existsb is_float col); [|reflexivity].
  rewrite map_map. apply map_ext. apply as_float_idempotent.
Qed.

Lemma infer_column_not_float (col : list number) :
  existsb is_float col = false -> infer_column col = col.
Proof. intros H. unfold infer_column. rewrite H. reflexivity. Qed.

(** Typing two columns and then the two together is typing the two
    together. *)
Lemma infer_column_app (a1 a2 : list number) :
  infer_column (infer_column a1 ++ infer_column a2) = infer_column (a1 ++ a2).
Proof.
  unfold infer_column at 1 4.
  rewrite !existsb_app, !existsb_is_float_infer.
  destruct (existsb is_float a1) eqn:H1; cbn [orb].
  - rewrite !map_app, !map_as_float_infer. reflexivity.
  - destruct (existsb is_float a2) eqn:H2.
    + rewrite !map_app, !map_as_float_infer. reflexivity.
    + rewrite (infer_column_not_float a1 H1), (infer_column_not_float a2 H2).
      reflexivity.
Qed.

Lemma summary_avg (kept : list (string * list (gmap string string)))
    (avg : list number) :
  length kept = length avg ->
  map row_avg_listings (zip_with summary_of kept avg) = avg.
Proof.
  revert avg. induction kept as [|r kept IH]; intros [|a avg] Hlen;
    try discriminate; [reflexivity|].
  simpl. f_equal. apply IH. simpl in Hlen. lia.
Qed.

Lemma with_avg_summary (kept : list (string * list (gmap string string)))
    (avg avg' : list number) :
  length kept = length avg -> length kept = length avg' ->
  zip_with with_avg (zip_with summary_of kept avg) avg'
  = zip_with summary_of kept avg'.
Proof.
  revert avg avg'.
  induction kept as [|r kept IH]; intros [|a avg] [|a' avg'] Hlen Hlen';
    try discriminate; [reflexivity|].
  simpl. f_equal. apply IH; simpl in *; lia.
Qed.

Lemma summary_lists (kept : list (string * list (gmap string string)))
    (avg avg' : list number) :
  length kept = length avg -> length kept = length avg' ->
  map row_list_of_valid_searches (zip_with summary_of kept avg)
  = map row_list_of_valid_searches (zip_with summary_of kept avg').
Proof.
  revert avg avg'.
  induction kept as [|r kept IH]; intros [|a avg] [|a' avg'] Hlen Hlen';
    try discriminate; [reflexivity|].
  simpl. f_equal. apply IH; simpl in *; lia.
Qed.

(** X12. [execute] on two inputs put end to end gives the summary rows of
    the first followed by those of the second, but for the one column
    pandas types as a whole: [avg_listings] is [float64] in every row as
    soon as it is in one, so that a [0] of one input is written [0.0]
    beside a float of the other. The unique ids are those of either
    input. *)
Theorem X12_execute_of_appended_inputs (d1 d2 : list (string * string))
    (rows1 rows2 : list summary_row) (ids1 ids2 : list string) :
  execute d1 = Ok (rows1, ids1) ->
  execute d2 = Ok (rows2, ids2) ->
  exists ids,
    execute (d1 ++ d2)
    = Ok (zip_with with_avg (rows1 ++ rows2)
            (infer_column (map row_avg_listings (rows1 ++ rows2))),
          ids) /\
    forall x, x ∈ ids <-> x ∈ ids1 \/ x ∈ ids2.
Proof.
  intros H1 H2.
  destruct (execute_Ok _ _ _ H1) as [v1 [a1 [Hv1 [Ha1 [Hr1 Hi1]]]]].
  destruct (execute_Ok _ _ _ H2) as [v2 [a2 [Hv2 [Ha2 [Hr2 Hi2]]]]].
  assert (length v1 = length d1) as Hlen
    by (apply apply_length in Hv1; rewrite length_fmap in Hv1; exact Hv1).
  assert (length (retained d1 v1) = length (infer_column a1)) as Hlen1
    by (apply apply_length in Ha1; rewrite length_fmap in Ha1;
        rewrite length_infer_column; symmetry; exact Ha1).
  assert (length (retained d2 v2) = length (infer_column a2)) as Hlen2
    by (apply apply_length in Ha2; rewrite length_fmap in Ha2;
        rewrite length_infer_column; symmetry; exact Ha2).
  assert (length (retained d1 v1 ++ retained d2 v2)
          = length (infer_column a1 ++ infer_column a2)) as Hlen12
    by (rewrite !length_app; lia).
  assert (length (retained d1 v1 ++ retained d2 v2)
          = length (infer_column (a1 ++ a2))) as Hlen12'
    by (rewrite length_infer_column, !length_app;
        rewrite !length_infer_column in *; lia).
  assert ((rows1 ++ rows2)%list
          = zip_with summary_of (retained d1 v1 ++ retained d2 v2)
              (infer_column a1 ++ infer_column a2)) as Hrows
    by (rewrite (zip_with_app summary_of _ _ _ _ Hlen1), Hr1, Hr2; reflexivity).
  assert (execute (d1 ++ d2)
          = Ok (zip_with summary_of (retained d1 v1 ++ retained d2 v2)
                  (infer_column (a1 ++ a2)),
                unique_ids
                  (zip_with summary_of (retained d1 v1 ++ retained d2 v2)
                     (infer_column (a1 ++ a2))))) as Hexec.
  { rewrite execute_unfold, fmap_app, apply_app, Hv1, Hv2, !bind_Ok.
    rewrite (retained_app d1 d2 v1 v2 Hlen).
    rewrite fmap_app, apply_app, Ha1, Ha2, !bind_Ok. reflexivity. }
  eexists. split.
  - rewrite Hexec, Hrows. rewrite (summary_avg _ _ Hlen12), infer_column_app.
    rewrite (with_avg_summary _ _ _ Hlen12 Hlen12'). reflexivity.
  - intros x. rewrite Hi1, Hi2, <- unique_ids_app, Hrows.
    unfold unique_ids.
    rewrite (summary_lists _ _ _ Hlen12' Hlen12). reflexivity.
Qed.

Lemma X12_witness_two_inputs :
  let d1 := [("u1", "search_id:a,enabled:true,clicks:3")] in
  let d2 := [("u2", "search_id:b,enabled:true,clicks:4,listings_sent:10")] in
  let row1 := {| row_user_id := "u1"; row_num_valid_searches := 1;
                 row_avg_listings := PyInt 0; row_type_of_search := "none";
                 row_list_of_valid_searches := ["a"] |} in
  let row2 := {| row_user_id := "u2"; row_num_valid_searches := 1;
                 row_avg_listings := NpFloat 10; row_type_of_search := "none";
                 row_list_of_valid_searches := ["b"] |} in
  (execute d1 = Ok ([row1], ["a"]) /\ execute d2 = Ok ([row2], ["b"])) /\
  exists ids,
    execute (d1 ++ d2)
    = Ok (zip_with with_avg ([row1] ++ [row2])
            (infer_column (map row_avg_listings ([row1] ++ [row2]))),
          ids) /\
    forall x, x ∈ ids <-> x ∈ ["a"] \/ x ∈ ["b"].
Proof.
  intros d1 d2 row1 row2.
  assert (execute d1 = Ok ([row1], ["a"])) as H1 by (vm_compute; reflexivity).
  assert (execute d2 = Ok ([row2], ["b"])) as H2 by (vm_compute; reflexivity).
  exact (conj (conj H1 H2) (X12_execute_of_appended_inputs _ _ _ _ _ _ H1 H2)).
Defined.

(** The [0] of the first input beside the [10.0] of the second. *)
Example execute_mixed_averages :
  map row_avg_listings
    (execute_rows
       [ ("u1", "search_id:a,enabled:true,clicks:3");
         ("u2", "search_id:b,enabled:true,clicks:4,listings_sent:10") ])
  = [NpFloat 0; NpFloat 10].
Proof. vm_compute. reflexivity. Qed.

Lemma summary_user_ids (kept : list (string * list (gmap string string)))
    (avg : list number) :
  length kept = length avg ->
  map row_user_id (zip_with summary_of kept avg) = kept.*1.
Proof.
  revert avg. induction kept as [|r kept IH]; intros [|a avg] Hlen;
    try discriminate; [reflexivity|].
  simpl. f_equal. apply IH. simpl in Hlen. lia.
Qed.

Lemma zip_apply_member {B : Type} (f : string -> result B)
    (l : list (string * string)) (ys : list B) (u : string) (y : B) :
  apply f (l.*2) = Ok ys ->
  ((u, y) ∈ zip (l.*1) ys <-> exists b, (u, b) ∈ l /\ f b = Ok y).
Proof.
  revert ys. induction l as [|[u0 b0] l IH]; intros ys H.
  - inversion H; subst. simpl. split; [intros Hin; inversion Hin|].
    intros [b [Hin _]]. inversion Hin.
  - rewrite fmap_cons in H. cbn [apply snd] in H.
    destruct (f b0) as [y0|e] eqn:Hb0; [|discriminate]. rewrite bind_Ok in H.
    destruct (apply f (l.*2)) as [ys0|e] eqn:Hl; [|discriminate].
    rewrite bind_Ok in H. inversion H; subst ys.
    rewrite fmap_cons. cbn [zip_with fst]. rewrite elem_of_cons, (IH ys0 eq_refl).
    split.
    + intros [Heq|[b [Hin Hb]]].
      * inversion Heq; subst. exists b0. split; [left | exact Hb0].
      * exists b. split; [right; exact Hin | exact Hb].
    + intros [b [Hin Hb]]. apply elem_of_cons in Hin as [Heq|Hin].
      * inversion Heq; subst. left. f_equal. congruence.
      * right. exists b. split; assumption.
Qed.

(** X13. The users of the summary table are users of the input, in the
    order of the input, and a user is in the summary table exactly when
    one of its rows has a blob with at least one valid search. *)
Theorem X13_summary_users (data : list (string * string))
    (rows : list summary_row) (ids : list string) :
  execute data = Ok (rows, ids) ->
  map row_user_id rows `sublist_of` data.*1 /\
  (forall u,
     u ∈ map row_user_id rows <->
     exists blob v vs, (u, blob) ∈ data /\ valid_searches blob = Ok (v :: vs)).
Proof.
  intros H. destruct (execute_Ok _ _ _ H) as [valid [avg [Hv [Ha [-> _]]]]].
  assert (length (retained data valid) = length (infer_column avg)) as Hlen
    by (apply apply_length in Ha; rewrite length_fmap in Ha;
        rewrite length_infer_column; symmetry; exact Ha).
  rewrite (summary_user_ids _ _ Hlen).
  assert (length (data.*1) = length valid) as Hlen'
    by (apply apply_length in Hv; rewrite !length_fmap in *; symmetry; exact Hv).
  split.
  - unfold retained. etransitivity; [apply fmap_sublist, sublist_filter|].
    rewrite fst_zip by lia. reflexivity.
  - intros u. unfold retained. rewrite list_elem_of_fmap. split.
    + intros [[u' vs] [-> Hin]]. apply list_elem_of_filter in Hin as [Hpos Hin].
      apply (zip_apply_member valid_searches data valid u' vs Hv) in Hin
        as [blob [Hin Hblob]].
      destruct vs as [|v vs]; [inversion Hpos|].
      exists blob, v, vs. split; assumption.
    + intros [blob [v [vs [Hin Hblob]]]]. exists (u, v :: vs).
      split; [reflexivity|]. apply list_elem_of_filter. split; [exact I|].
      apply (zip_apply_member valid_searches data valid u (v :: vs) Hv).
      exists blob. split; assumption.
Qed.

Lemma X13_witness_middle_user_dropped :
  let data := [ ("u1", "enabled:true,clicks:3"); ("u2", "enabled:false");
                ("u3", "enabled:true,clicks:9") ] in
  let row u := {| row_user_id := u; row_num_valid_searches := 1;
                  row_avg_listings := PyInt 0; row_type_of_search := "none";
                  row_list_of_valid_searches := [] |} in
  execute data = Ok ([row "u1"; row "u3"], []) /\
  map row_user_id [row "u1"; row "u3"] `sublist_of` data.*1 /\
  (forall u,
     u ∈ map row_user_id [row "u1"; row "u3"] <->
     exists blob v vs, (u, blob) ∈ data /\ valid_searches blob = Ok (v :: vs)).
Proof.
  intros data row.
  assert (execute data = Ok ([row "u1"; row "u3"], [])) as H
    by (vm_compute; reflexivity).
  exact (conj H (X13_summary_users _ _ _ H)).
Defined.

Lemma filter_all {A : Type} (P : A -> Prop) `{forall x, Decision (P x)}
    (l : list A) :
  Forall P l -> filter P l = l.
Proof.
  induction 1 as [|x l Hx _ IH]; [reflexivity|].
  rewrite filter_cons. destruct (decide (P x)); [|contradiction].
  rewrite IH. reflexivity.
Qed.

Lemma total_at_least_length (rows : list summary_row) :
  Forall (fun row => (0 < row_num_valid_searches row)%nat) rows ->
  (length rows <= total_valid_searches rows)%nat.
Proof.
  induction 1 as [|row rows Hrow _ IH]; simpl; lia.
Qed.

(** X14. Of the two totals [execute] logs, the number of users is the
    number of rows of the summary table, the test [> 0] holding on every
    one of them, and the number of valid searches is never below it. *)
Theorem X14_logged_totals (data : list (string * string))
    (rows : list summary_row) (ids : list string) :
  execute data = Ok (rows, ids) ->
  total_users rows = length rows /\
  (total_users rows <= total_valid_searches rows)%nat.
Proof.
  intros H. destruct (execute_Ok _ _ _ H) as [valid [avg [_ [_ [-> _]]]]].
  assert (Forall (fun row => (0 < row_num_valid_searches row)%nat)
                 (zip_with summary_of (retained data valid) (infer_column avg))) as Hpos.
  { eapply Forall_zip_with_fst; [apply retained_positive|].
    apply Forall_forall. intros a _ r Hr. exact Hr. }
  assert (total_users (zip_with summary_of (retained data valid) (infer_column avg))
          = length (zip_with summary_of (retained data valid) (infer_column avg))) as Husers.
  { unfold total_users. f_equal. apply filter_all.
    eapply Forall_impl; [exact Hpos|]. intros row Hrow.
    apply Is_true_true, Nat.ltb_lt. exact Hrow. }
  split; [exact Husers|]. rewrite Husers. apply total_at_least_length, Hpos.
Qed.

Lemma X14_witness_totals :
  let data := [ ("u1", "enabled:true,clicks:3\n-enabled:true,clicks:4");
                ("u2", "enabled:false") ] in
  let rows := [ {| row_user_id := "u1"; row_num_valid_searches := 2;
                   row_avg_listings := PyInt 0; row_type_of_search := "none";
                   row_list_of_valid_searches := [] |} ] in
  execute data = Ok (rows, []) /\
  total_users rows = length rows /\
  (total_users rows <= total_valid_searches rows)%nat.
Proof.
  intros data rows.
  assert (execute data = Ok (rows, [])) as H by (vm_compute; reflexivity).
  exact (conj H (X14_logged_totals _ _ _ H)).
Defined.

(** ** Object paths *)

Lemma sub_lit_without (c : ascii) (s : string) :
  Re.sub [[Re.One (Re.Lit c)]] "" s = without c s.
Proof.
  induction s as [|d r IH]; [reflexivity|].
  rewrite sub_unfold, match_lit. cbn [without].
  destruct (Ascii.eqb c d).
  - rewrite ltb_length_tail, app_Empty. exact IH.
  - rewrite IH. reflexivity.
Qed.

Lemma without_of_free (c : ascii) (s : string) :
  free_of c s = true -> without c s = s.
Proof.
  induction s as [|d r IH]; intros H; [reflexivity|].
  cbn [free_of] in H. apply andb_prop in H as [Hd Hr].
  cbn [without]. apply negb_true_iff in Hd. rewrite Hd, (IH Hr). reflexivity.
Qed.

(** X15. In the path of an object the bucket is written as it is, dashes
    included, and the key is written without any of its dashes; a key
    that has none is written as it is. *)
Theorem X15_s3_path_key_without_dashes (s3_bucket rendered_key : string) :
  s3_path s3_bucket rendered_key
  = "s3://" ++ s3_bucket ++ "/" ++ without "-" rendered_key /\
  free_of "-" (without "-" rendered_key) = true /\
  (free_of "-" rendered_key = true ->
   s3_path s3_bucket rendered_key = "s3://" ++ s3_bucket ++ "/" ++ rendered_key).
Proof.
  assert (s3_path s3_bucket rendered_key
          = "s3://" ++ s3_bucket ++ "/" ++ without "-" rendered_key) as Hpath
    by (unfold s3_path, re_dash; rewrite sub_lit_without; reflexivity).
  split; [exact Hpath|]. split; [apply without_free|].
  intros Hfree. rewrite Hpath, (without_of_free _ _ Hfree). reflexivity.
Qed.

Example s3_path_dated_key :
  s3_path "street-easy" "inferred_users.2018-01-20.csv.gz"
  = "s3://street-easy/inferred_users.20180120.csv.gz".
Proof. vm_compute. reflexivity. Qed.

(** ** A space before the colon *)

Lemma space_not_backslash (c : ascii) :
  is_space c = true -> Ascii.eqb backslash c = false.
Proof.
  intros H. destruct (Ascii.eqb_spec backslash c) as [<-|]; [|reflexivity].
  vm_compute in H. discriminate H.
Qed.

Lemma all_space_no_backslash (w : string) :
  all_space w = true -> free_of backslash w = true.
Proof.
  induction w as [|c w IH]; intros H; [reflexivity|].
  cbn [all_space] in H. apply andb_prop in H as [Hc Hw].
  cbn [free_of]. rewrite (space_not_backslash c Hc), (IH Hw). reflexivity.
Qed.

(** The first rewriting leaves a start without backslash as it is. *)
Lemma sub_escapes_prefix (p s : string) :
  free_of backslash p = true ->
  Re.sub re_escapes " " (p ++ s) = p ++ Re.sub re_escapes " " s.
Proof.
  induction p as [|c p IH]; intros H; [reflexivity|].
  cbn [free_of] in H. apply andb_prop in H as [Hc Hp].
  rewrite !app_String, sub_escapes_other, (IH Hp); [reflexivity|].
  intros ->. rewrite Ascii.eqb_refl in Hc. discriminate.
Qed.

(** The second rewriting leaves a start without whitespace as it is. *)
Lemma sub_space_colon_prefix (p s : string) :
  no_space p = true ->
  Re.sub re_space_colon "," (p ++ s) = p ++ Re.sub re_space_colon "," s.
Proof.
  induction p as [|c p IH]; intros H; [reflexivity|].
  cbn [no_space] in H. apply andb_prop in H as [Hc Hp].
  rewrite !app_String, sub_space_colon_keep, (IH Hp); [reflexivity|].
  left. apply negb_true_iff. exact Hc.
Qed.

Lemma recognized_plain (k : string) :
  k ∈ recognized ->
  free_of backslash k = true /\ no_space k = true /\ free_of "," k = true.
Proof.
  intros H. unfold recognized in H.
  repeat (apply elem_of_cons in H as [->|H]);
    try (repeat split; vm_compute; reflexivity).
  inversion H.
Qed.

Lemma recognized_head (k : string) :
  k ∈ recognized ->
  exists (a : ascii) (r : string), k = String a r /\ a <> "n"%char.
Proof.
  intros H. unfold recognized in H.
  repeat (apply elem_of_cons in H as [->|H]);
    try (eexists _, _; split; [reflexivity | discriminate]).
  inversion H.
Qed.

Lemma space_not_n (c : ascii) : is_space c = true -> c <> "n"%char.
Proof. intros H ->. vm_compute in H. discriminate H. Qed.

Lemma space_not_colon (c : ascii) :
  is_space c = true -> Ascii.eqb c ":"%char = false.
Proof.
  intros H. destruct (Ascii.eqb_spec c ":"%char) as [->|]; [|reflexivity].
  vm_compute in H. discriminate H.
Qed.

Lemma all_space_app (a b : string) :
  all_space (a ++ b) = all_space a && all_space b.
Proof.
  induction a as [|c a IH]; [reflexivity|].
  rewrite app_String. cbn [all_space]. rewrite IH, andb_assoc. reflexivity.
Qed.

(** The first rewriting works on a start and on the rest apart when the
    rest opens with two characters other than [n]: no match that begins in
    the start reaches past them. *)
Lemma sub_escapes_app (pre : string) (a b : ascii) (s : string) :
  a <> "n"%char -> b <> "n"%char ->
  Re.sub re_escapes " " (pre ++ String a (String b s)) =
  Re.sub re_escapes " " pre ++ Re.sub re_escapes " " (String a (String b s)).
Proof.
  intros Ha Hb.
  assert (any_then_n (String a (String b s)) = false) as Hab.
  { unfold any_then_n. apply Ascii.eqb_neq in Hb. rewrite Hb.
    apply andb_false_r. }
  induction pre as [pre IH] using string_length_ind.
  destruct pre as [|c p].
  - rewrite sub_empty, !app_Empty. reflexivity.
  - destruct (Ascii.eqb_spec c backslash) as [->|Hc].
    + destruct p as [|d [|e p']].
      * rewrite app_String, app_Empty.
        rewrite (sub_escapes_lone _ Hab).
        rewrite (sub_escapes_lone "" eq_refl), sub_empty. reflexivity.
      * assert (any_then_n (String d (String a (String b s))) = false) as Hda.
        { unfold any_then_n. apply Ascii.eqb_neq in Ha. rewrite Ha.
          apply andb_false_r. }
        rewrite !app_String, app_Empty.
        rewrite (sub_escapes_lone _ Hda).
        change (String d (String a (String b s)))
          with (String d "" ++ String a (String b s)).
        rewrite IH by (simpl; lia).
        rewrite (sub_escapes_lone (String d "") eq_refl).
        rewrite string_app_assoc. reflexivity.
      * destruct (any_then_n (String d (String e p'))) eqn:Hv.
        -- unfold any_then_n in Hv. apply andb_prop in Hv as [Hd He].
           apply Ascii.eqb_eq in He. subst e.
           assert (d <> newline) as Hdn.
           { intros ->. rewrite Ascii.eqb_refl in Hd. discriminate Hd. }
           rewrite !app_String.
           rewrite !(sub_escapes_triple d _ Hdn).
           rewrite IH by (simpl; lia).
           rewrite string_app_assoc. reflexivity.
        -- rewrite !app_String.
           rewrite (sub_escapes_lone (String d (String e (p' ++ _))) Hv).
           rewrite (sub_escapes_lone (String d (String e p')) Hv).
           change (String d (String e (p' ++ String a (String b s))))
             with (String d (String e p') ++ String a (String b s)).
           rewrite IH by (simpl; lia).
           rewrite string_app_assoc. reflexivity.
    + rewrite app_String, !(sub_escapes_other c _ Hc).
      rewrite IH by (simpl; lia).
      rewrite app_String. reflexivity.
Qed.

Lemma space_then_colon_comma (r s : string) :
  space_then_colon (r ++ String "," s) = space_then_colon r.
Proof.
  induction r as [|c r IH]; [reflexivity|].
  rewrite app_String. cbn [space_then_colon]. rewrite IH. reflexivity.
Qed.

Lemma space_then_colon_run (r : string) :
  space_then_colon r = true ->
  exists w r', r = w ++ String ":" r' /\ all_space w = true.
Proof.
  induction r as [|c r IH]; intros H; [discriminate|].
  cbn [space_then_colon] in H. apply orb_prop in H as [H|H].
  - apply Ascii.eqb_eq in H. subst c. exists "", r. split; reflexivity.
  - apply andb_prop in H as [Hc Hr].
    destruct (IH Hr) as (w & r' & -> & Hw).
    exists (String c w), r'. split; [rewrite app_String; reflexivity|].
    cbn [all_space]. rewrite Hc, Hw. reflexivity.
Qed.

Lemma space_then_colon_stop (w : string) (d : ascii) (z : string) :
  all_space w = true -> is_space d = false ->
  space_then_colon (w ++ String d z) = Ascii.eqb d ":"%char.
Proof.
  intros Hw Hd. induction w as [|c w IH].
  - rewrite app_Empty. cbn [space_then_colon]. rewrite Hd. apply orb_false_r.
  - cbn [all_space] in Hw. apply andb_prop in Hw as [Hc Hw].
    rewrite app_String. cbn [space_then_colon].
    rewrite (space_not_colon c Hc), Hc, (IH Hw). reflexivity.
Qed.

Lemma space_run_or_stop (r : string) :
  all_space r = true \/
  exists w d r', r = w ++ String d r' /\ all_space w = true /\
                 is_space d = false.
Proof.
  induction r as [|c r IH]; [left; reflexivity|].
  destruct (is_space c) eqn:Hc.
  - destruct IH as [Hr | (w & d & r' & -> & Hw & Hd)].
    + left. cbn [all_space]. rewrite Hc, Hr. reflexivity.
    + right. exists (String c w), d, r'.
      split; [rewrite app_String; reflexivity|].
      split; [|exact Hd]. cbn [all_space]. rewrite Hc, Hw. reflexivity.
  - right. exists "", c, r. repeat split. exact Hc.
Qed.

(** The second rewriting works on the two sides of a comma apart. *)
Lemma sub_space_colon_comma (p s : string) :
  Re.sub re_space_colon "," (p ++ String "," s) =
  Re.sub re_space_colon "," p ++ String "," (Re.sub re_space_colon "," s).
Proof.
  induction p as [p IH] using string_length_ind.
  destruct p as [|c r].
  - rewrite sub_empty, !app_Empty. apply sub_space_colon_keep.
    left. reflexivity.
  - destruct (is_space c) eqn:Hc; [destruct (space_then_colon r) eqn:Hr|].
    + destruct (space_then_colon_run r Hr) as (w & r' & -> & Hw).
      assert (String c w <> "") as Hne by discriminate.
      assert (all_space (String c w) = true) as Hcw
        by (cbn [all_space]; rewrite Hc, Hw; reflexivity).
      replace (String c (w ++ String ":" r') ++ String "," s)
        with (String c w ++ String ":" (r' ++ String "," s))
        by (rewrite !app_String, string_app_assoc, app_String; reflexivity).
      replace (String c (w ++ String ":" r'))
        with (String c w ++ String ":" r') by apply app_String.
      rewrite !(sub_space_colon_run (String c w) _ Hne Hcw).
      rewrite IH by (simpl; rewrite string_length_app; simpl; lia).
      rewrite string_app_assoc. reflexivity.
    + rewrite app_String.
      rewrite (sub_space_colon_keep c (r ++ _))
        by (right; rewrite space_then_colon_comma; exact Hr).
      rewrite (sub_space_colon_keep c r) by (right; exact Hr).
      rewrite IH by (simpl; lia). rewrite app_String. reflexivity.
    + rewrite app_String.
      rewrite !(sub_space_colon_keep c) by (left; exact Hc).
      rewrite IH by (simpl; lia). rewrite app_String. reflexivity.
Qed.

(** A run of whitespace and a colon further on become a comma, whatever
    stands before them. *)
Lemma sub_space_colon_separator (q w1 t : string) :
  w1 <> "" -> all_space w1 = true ->
  exists X,
    Re.sub re_space_colon "," (q ++ w1 ++ String ":" t) =
    X ++ String "," (Re.sub re_space_colon "," t).
Proof.
  intros Hne Hw1. induction q as [q IH] using string_length_ind.
  destruct q as [|c r].
  - exists "". rewrite !app_Empty. apply (sub_space_colon_run w1 t Hne Hw1).
  - destruct (is_space c) eqn:Hc.
    + destruct (space_run_or_stop r) as [Hr | (w & d & r' & -> & Hw & Hd)].
      * exists "". rewrite app_Empty, <- string_app_assoc.
        apply sub_space_colon_run.
        -- rewrite app_String. discriminate.
        -- rewrite app_String. cbn [all_space].
           rewrite Hc, all_space_app, Hr, Hw1. reflexivity.
      * destruct (Ascii.eqb_spec d ":"%char) as [->|Hcol].
        -- destruct (IH r') as [X HX];
             [simpl; rewrite string_length_app; simpl; lia|].
           exists ("," ++ X).
           replace (String c (w ++ String ":" r') ++ w1 ++ String ":" t)
             with (String c w ++ String ":" (r' ++ w1 ++ String ":" t))
             by (rewrite !app_String, string_app_assoc, app_String;
                 reflexivity).
           rewrite sub_space_colon_run;
             [| discriminate
              | cbn [all_space]; rewrite Hc, Hw; reflexivity].
           rewrite HX, string_app_assoc. reflexivity.
        -- destruct (IH (w ++ String d r')) as [X HX]; [simpl; lia|].
           exists (String c X).
           rewrite app_String, sub_space_colon_keep.
           ++ rewrite HX, app_String. reflexivity.
           ++ right. rewrite string_app_assoc, app_String.
              rewrite (space_then_colon_stop w d _ Hw Hd).
              apply Ascii.eqb_neq. exact Hcol.
    + destruct (IH r) as [X HX]; [simpl; lia|].
      exists (String c X).
      rewrite app_String, sub_space_colon_keep by (left; exact Hc).
      rewrite HX, app_String. reflexivity.
Qed.

(** [split] on one character works on the two sides of that character
    apart. *)
Lemma split_char_app (c : ascii) (a b : string) :
  split (String c "") (a ++ String c b) =
  (split (String c "") a ++ split (String c "") b)%list.
Proof.
  induction a as [|d a IH].
  - rewrite app_Empty.
    rewrite (split_unfold _ (char_sep_nonempty c) (String c b)).
    rewrite strip_prefix_char, Ascii.eqb_refl. reflexivity.
  - rewrite app_String.
    rewrite (split_unfold _ (char_sep_nonempty c) (String d (a ++ _))).
    rewrite (split_unfold _ (char_sep_nonempty c) (String d a)).
    rewrite !strip_prefix_char.
    destruct (Ascii.eqb c d).
    + rewrite IH. reflexivity.
    + rewrite IH.
      pose proof (split_not_nil _ (char_sep_nonempty c) a) as Hnil.
      destruct (split (String c "") a) as [|h t]; [contradiction|].
      reflexivity.
Qed.

(** What may stand right before a field name for the name to open a token:
    nothing at all, at the start of the chunk; a comma; or a run of
    whitespace and a colon, which the second rewriting turns into a
    comma. *)
Definition opens_token (pre sepa : string) : Prop :=
  (pre = "" /\ sepa = "") \/
  sepa = "," \/
  exists w1, sepa = w1 ++ ":" /\ w1 <> "" /\ all_space w1 = true.

(** A name that opens a token and has whitespace before its colon is a
    token of its own. *)
Lemma bare_name_token (pre sepa k w rest : string) :
  opens_token pre sepa ->
  k ∈ recognized -> w <> "" -> all_space w = true ->
  k ∈ split ","
        (Re.sub re_space_colon ","
           (Re.sub re_escapes " " (pre ++ sepa ++ k ++ w ++ ":" ++ rest))).
Proof.
  intros Hopen Hk Hw Hspace.
  destruct (recognized_plain k Hk) as [Hbs [Hns Hcomma]].
  destruct (recognized_head k Hk) as (k0 & k' & Hk0 & Hk0n).
  assert (Re.sub re_escapes " " (k ++ w ++ ":" ++ rest)
          = k ++ w ++ String ":" (Re.sub re_escapes " " rest)) as Hesc.
  { rewrite (sub_escapes_prefix k _ Hbs).
    rewrite (sub_escapes_prefix w _ (all_space_no_backslash w Hspace)).
    change (":" ++ rest) with (String ":" rest).
    rewrite sub_escapes_other by discriminate. reflexivity. }
  assert (forall t, Re.sub re_space_colon "," (k ++ w ++ String ":" t)
                    = k ++ String "," (Re.sub re_space_colon "," t)) as Hcol.
  { intros t. rewrite (sub_space_colon_prefix k _ Hns).
    rewrite (sub_space_colon_run w _ Hw Hspace). reflexivity. }
  destruct Hopen as [[-> ->] | [-> | (w1 & -> & Hw1 & Hs1)]].
  - rewrite !app_Empty, Hesc, Hcol.
    rewrite (split_char_at "," k _ Hcomma). left.
  - change ("," ++ k ++ w ++ ":" ++ rest)
      with (String "," (k ++ w ++ ":" ++ rest)).
    assert (Re.sub re_escapes " " (pre ++ String "," (k ++ w ++ ":" ++ rest))
            = Re.sub re_escapes " " pre ++
              String "," (k ++ w ++ String ":" (Re.sub re_escapes " " rest)))
      as ->.
    { rewrite <- Hesc, <- (sub_escapes_other "," _) by discriminate.
      rewrite Hk0, app_String.
      apply sub_escapes_app; [discriminate | exact Hk0n]. }
    rewrite sub_space_colon_comma, Hcol, split_char_app.
    apply elem_of_app. right.
    rewrite (split_char_at "," k _ Hcomma). left.
  - destruct w1 as [|a w1']; [contradiction|].
    cbn [all_space] in Hs1. apply andb_prop in Hs1 as [Ha Hs1'].
    assert (Re.sub re_escapes " "
              (pre ++ (String a w1' ++ ":") ++ k ++ w ++ ":" ++ rest)
            = Re.sub re_escapes " " pre ++ String a w1' ++
              String ":" (k ++ w ++ String ":" (Re.sub re_escapes " " rest)))
      as ->.
    { rewrite <- Hesc.
      assert (free_of backslash (String a w1') = true) as Hfree.
      { apply all_space_no_backslash. cbn [all_space].
        rewrite Ha, Hs1'. reflexivity. }
      rewrite <- (sub_escapes_other ":" _) by discriminate.
      rewrite <- (sub_escapes_prefix (String a w1') _ Hfree).
      rewrite string_app_assoc.
      change (":" ++ k ++ w ++ ":" ++ rest)
        with (String ":" (k ++ w ++ ":" ++ rest)).
      destruct w1' as [|b w1''].
      - rewrite !app_String, !app_Empty.
        apply sub_escapes_app; [exact (space_not_n a Ha) | discriminate].
      - cbn [all_space] in Hs1'. apply andb_prop in Hs1' as [Hb _].
        rewrite !app_String.
        apply sub_escapes_app;
          [exact (space_not_n a Ha) | exact (space_not_n b Hb)]. }
    destruct (sub_space_colon_separator (Re.sub re_escapes " " pre)
                (String a w1')
                (k ++ w ++ String ":" (Re.sub re_escapes " " rest)) Hw1)
      as [X HX].
    { cbn [all_space]. rewrite Ha, Hs1'. reflexivity. }
    rewrite HX, Hcol, split_char_app.
    apply elem_of_app. right.
    rewrite (split_char_at "," k _ Hcomma). left.
Qed.

(** X16. Whitespace between a recognized name and its colon is fatal when
    the name opens a token, that is when it stands at the start of the
    chunk, right after a comma, or right after a run of whitespace and a
    colon (the layout of the file: [  :enabled : true]).  The whitespace
    and the colon become a comma, the name is left alone as a token, and
    the chunk raises [IndexError]; [valid_searches] of a blob with such a
    chunk does not return. *)
Theorem X16_space_before_colon_raises
    (raw chunk pre sepa k w rest : string) :
  chunk ∈ chunks raw ->
  chunk = pre ++ sepa ++ k ++ w ++ ":" ++ rest ->
  opens_token pre sepa ->
  k ∈ recognized -> w <> "" -> all_space w = true ->
  scan_keys
    (split "," (Re.sub re_space_colon "," (Re.sub re_escapes " " chunk))) ∅
  = Raise IndexError /\
  exists e, valid_searches raw = Raise e.
Proof.
  intros Hchunk -> Hopen Hk Hw Hspace.
  pose proof (bare_name_token pre sepa k w rest Hopen Hk Hw Hspace) as Htok.
  assert (scan_keys
            (split ","
               (Re.sub re_space_colon ","
                  (Re.sub re_escapes " "
                     (pre ++ sepa ++ k ++ w ++ ":" ++ rest)))) ∅
          = Raise IndexError) as Hscan
    by exact (scan_keys_bare_anywhere _ k ∅ Htok Hk).
  split; [exact Hscan|].
  rewrite valid_searches_loop.
  apply (valid_loop_raises_at _
           (split ","
              (Re.sub re_space_colon ","
                 (Re.sub re_escapes " "
                    (pre ++ sepa ++ k ++ w ++ ":" ++ rest))))).
  - rewrite token_lists_chunks. apply list_elem_of_fmap.
    exists (pre ++ sepa ++ k ++ w ++ ":" ++ rest).
    split; [reflexivity | exact Hchunk].
  - intros d Hd. congruence.
Qed.

Lemma X16_witness_enabled_space :
  (" :search_id: 7\n  :enabled : true" ∈
     chunks " :search_id: 7\n  :enabled : true" /\
   " :search_id: 7\n  :enabled : true"
   = " :search_id: 7\n" ++ "  :" ++ "enabled" ++ " " ++ ":" ++ " true" /\
   opens_token " :search_id: 7\n" "  :" /\
   "enabled" ∈ recognized /\ " " <> "" /\ all_space " " = true) /\
  scan_keys
    (split ","
       (Re.sub re_space_colon ","
          (Re.sub re_escapes " " " :search_id: 7\n  :enabled : true")))
    ∅
  = Raise IndexError /\
  exists e, valid_searches " :search_id: 7\n  :enabled : true" = Raise e.
Proof.
  assert (" :search_id: 7\n  :enabled : true" ∈
            chunks " :search_id: 7\n  :enabled : true") as Hchunk
    by (vm_compute; left).
  assert (opens_token " :search_id: 7\n" "  :") as Hopen.
  { right. right. exists "  ".
    split; [reflexivity | split; [discriminate | reflexivity]]. }
  assert ("enabled" ∈ recognized) as Hk by (right; left).
  assert (" " <> "") as Hw by discriminate.
  exact (conj (conj Hchunk
                 (conj eq_refl (conj Hopen (conj Hk (conj Hw eq_refl)))))
              (X16_space_before_colon_raises
                 " :search_id: 7\n  :enabled : true"
                 " :search_id: 7\n  :enabled : true"
                 " :search_id: 7\n" "  :" "enabled" " " " true"
                 Hchunk eq_refl Hopen Hk Hw eq_refl)).
Defined.

(** ** The ids that are written *)

Lemma free_of_without (c q : ascii) (s : string) :
  free_of c s = true -> free_of c (without q s) = true.
Proof.
  induction s as [|d r IH]; intros H; [reflexivity|].
  cbn [free_of] in H. apply andb_prop in H as [Hd Hr]. cbn [without].
  destruct (Ascii.eqb q d); [apply IH; exact Hr|].
  cbn [free_of]. rewrite Hd. apply IH. exact Hr.
Qed.

(** Every id of a summary row is the [search_id] of a valid search of one
    of the input blobs. *)
Lemma summary_id_origin (data : list (string * string))
    (rows : list summary_row) (ids : list string) (row : summary_row)
    (id : string) :
  execute data = Ok (rows, ids) ->
  row ∈ rows -> id ∈ row_list_of_valid_searches row ->
  exists u blob vs d,
    (u, blob) ∈ data /\ valid_searches blob = Ok vs /\ d ∈ vs /\
    d !! "search_id" = Some id /\ id <> "".
Proof.
  intros H Hrow Hid.
  destruct (execute_Ok _ _ _ H) as [valid [avg [Hv [_ [-> _]]]]].
  apply elem_of_zip_with in Hrow as [[u vs] [a [-> [Hkept _]]]].
  cbn [row_list_of_valid_searches summary_of snd] in Hid.
  unfold retained in Hkept. apply list_elem_of_filter in Hkept as [_ Hkept].
  apply (zip_apply_member valid_searches data valid u vs Hv) in Hkept
    as [blob [Hin Hblob]].
  unfold list_of_valid_searches in Hid. rewrite list_loop_omap in Hid.
  cbn [app] in Hid. apply list_elem_of_omap in Hid as [d [Hd Hfield]].
  unfold nonempty_field in Hfield.
  destruct (d !! "search_id") as [[|c r]|] eqn:Hsid; try discriminate.
  inversion Hfield; subst id.
  exists u, blob, vs, d. repeat split; try assumption. discriminate.
Qed.

(** X17. Every id written, in a row of the summary table or in the
    unique-search table, has no comma, no backslash and no colon in it,
    and those of the summary rows are not empty and have no whitespace at
    either end. *)
Theorem X17_written_ids_plain (data : list (string * string))
    (rows : list summary_row) (ids : list string) :
  execute data = Ok (rows, ids) ->
  Forall (fun row =>
            Forall (fun id => id <> "" /\ clean_value id)
                   (row_list_of_valid_searches row)) rows /\
  Forall (fun x => free_of "," x = true /\ free_of backslash x = true /\
                   free_of ":" x = true) ids.
Proof.
  intros H.
  assert (forall row id,
            row ∈ rows -> id ∈ row_list_of_valid_searches row ->
            id <> "" /\ clean_value id) as Hclean.
  { intros row id Hrow Hid.
    destruct (summary_id_origin _ _ _ _ _ H Hrow Hid)
      as [u [blob [vs [d [_ [Hblob [Hd [Hsid Hne]]]]]]]].
    split; [exact Hne|].
    exact (record_value_clean blob vs d "search_id" id Hblob Hd Hsid). }
  split.
  - apply Forall_forall. intros row Hrow.
    apply Forall_forall. intros id Hid. exact (Hclean row id Hrow Hid).
  - destruct (execute_Ok _ _ _ H) as [_ [_ [_ [_ [_ Hids]]]]].
    apply Forall_forall. intros x Hx. rewrite Hids in Hx.
    apply elem_of_unique_ids in Hx as [row [id [Hrow [Hid ->]]]].
    destruct (Hclean row id Hrow Hid) as [_ [Hbs [Hcomma [Hcolon _]]]].
    repeat split; apply free_of_without; assumption.
Qed.

Lemma X17_witness_padded_id :
  let data := [("u1", " :search_id:  ab'c \\n  :enabled: true\\n  :clicks: 3")] in
  let rows := [ {| row_user_id := "u1"; row_num_valid_searches := 1;
                   row_avg_listings := PyInt 0; row_type_of_search := "none";
                   row_list_of_valid_searches := ["ab'c"] |} ] in
  execute data = Ok (rows, ["abc"]) /\
  Forall (fun row =>
            Forall (fun id => id <> "" /\ clean_value id)
                   (row_list_of_valid_searches row)) rows /\
  Forall (fun x => free_of "," x = true /\ free_of backslash x = true /\
                   free_of ":" x = true) ["abc"].
Proof.
  intros data rows.
  assert (execute data = Ok (rows, ["abc"])) as H by (vm_compute; reflexivity).
  exact (conj H (X17_written_ids_plain _ _ _ H)).
Defined.
